(** * Checksum-valid 9-digit identification numbers

    A shallow embedding of [Campusil_next.py_Solution.py]: the validator
    [check_id_valid], the resumable iterator class [IDIterator], the
    generator function [id_generator] and the entry point [main], followed
    by the properties that the specification states about them and by
    further properties of the code.

    Conventions of the embedding.
    - Python integers are [Z]; [//] and [%] by a positive constant are
      [Z.div] and [Z.modulo] (both round towards minus infinity).
    - [str(n)] of an integer is its decimal text, a [string] (lemma
      [str_decimal]: the text that the decimal printer of the Standard
      Library gives); the text-level part of the validator,
      [check_id_text], is what runs after [str(...)].  Arguments are
      integers, as the docstrings have it, so [isinstance(_, int)] holds.
    - A raised exception is a value of [result]; the two exceptions the
      code can raise or signal are [ValueError] and [StopIteration].
    - The [while] loops are functions with a fuel argument that counts
      candidate tests; [None] means that the fuel ran out.  Totality is
      proved, with an explicit bound on the fuel needed. *)

From Stdlib Require Import ZArith List Bool Ascii String Lia Sorted.
From Stdlib Require Import NArith DecimalString DecimalPos.
Import ListNotations.

Local Open Scope Z_scope.

(** ** Exceptions and results *)

Inductive exn : Type :=
| ValueError
| StopIteration.

Inductive result (A : Type) : Type :=
| Return (a : A)
| Raise (e : exn).

Arguments Return {A} a.
Arguments Raise {A} e.

(** ** [str] of an integer *)

(** The decimal digit [d] (0..9) as a character. *)
Definition digit_char (d : Z) : ascii :=
  ascii_of_N (48 + Z.to_N d).

(** Digits of a non-negative [n], most significant first, pushed in front
    of [acc].  One unit of fuel per digit. *)
Fixpoint dec_digits (fuel : nat) (n : Z) (acc : list Z) : list Z :=
  match fuel with
  | O => acc
  | S fuel' =>
      let acc' := (n mod 10) :: acc in
      if n / 10 =? 0 then acc' else dec_digits fuel' (n / 10) acc'
  end.

(** A number below [2 ^ k] has at most [k] decimal digits. *)
Definition digits_fuel (n : Z) : nat := S (Z.to_nat (Z.log2 n)).

Definition digits_of (n : Z) : list Z := dec_digits (digits_fuel n) n [].

Fixpoint text_of_digits (ds : list Z) : string :=
  match ds with
  | [] => EmptyString
  | d :: ds' => String (digit_char d) (text_of_digits ds')
  end.

(** Python's [str(n)] for an [int]. *)
Definition str (n : Z) : string :=
  match n with
  | Zneg p => String "-"%char (text_of_digits (digits_of (Zpos p)))
  | _ => text_of_digits (digits_of n)
  end.

(** ** The validator *)

(** [c.isnumeric()] on a character of ASCII text: the decimal digits. *)
Definition is_numeric_char (c : ascii) : bool :=
  (48 <=? N_of_ascii c)%N && (N_of_ascii c <=? 57)%N.

Fixpoint all_numeric (s : string) : bool :=
  match s with
  | EmptyString => true
  | String c s' => is_numeric_char c && all_numeric s'
  end.

(** [s.isnumeric()]: at least one character, and all of them numeric. *)
Definition isnumeric (s : string) : bool :=
  match s with
  | EmptyString => false
  | _ => all_numeric s
  end.

(** [int(digit)] for a one-character digit string. *)
Definition int_of_char (c : ascii) : Z := Z.of_N (N_of_ascii c) - 48.

(** [[int(digit) * 2 if (index + 1) % 2 == 0 else int(digit)
      for index, digit in enumerate(id_str)]], from position [index] on. *)
Fixpoint multiplied_from (index : Z) (id_str : string) : list Z :=
  match id_str with
  | EmptyString => []
  | String digit rest =>
      (if (index + 1) mod 2 =? 0 then int_of_char digit * 2
       else int_of_char digit) :: multiplied_from (index + 1) rest
  end.

Definition multiplied_list (id_str : string) : list Z :=
  multiplied_from 0 id_str.

(** [num if num < 10 else (num // 10) + (num % 10)] *)
Definition fold_digits (num : Z) : Z :=
  if num <? 10 then num else num / 10 + num mod 10.

(** Python's [sum] of a list of integers. *)
Definition sum (l : list Z) : Z := fold_left Z.add l 0.

(** The body of [check_id_valid] once [id_str = str(id_number)] is known. *)
Definition check_id_text (id_str : string) : result bool :=
  if negb (Nat.eqb (String.length id_str) 9) || negb (isnumeric id_str)
  then Raise ValueError
  else
    let summed_list := sum (map fold_digits (multiplied_list id_str)) in
    Return (summed_list mod 10 =? 0).

Definition check_id_valid (id_number : Z) : result bool :=
  check_id_text (str id_number).

(** ** The iterator class *)

Module IDIterator.

Record t : Type := Build { id_ : Z }.

(** [__init__] stores the starting id and does nothing else. *)
Definition __init__ (id_ : Z) : result t := Return (Build id_).

(** [__next__]: the [while True] loop, at most [fuel] candidate tests.
    An exception of [check_id_valid] leaves the loop with [self] as it is
    at that moment. *)
Fixpoint __next__ (fuel : nat) (self : t) : option (result Z * t) :=
  match fuel with
  | O => None
  | S fuel' =>
      match check_id_valid (id_ self) with
      | Raise e => Some (Raise e, self)
      | Return true =>
          let current_id := id_ self in
          Some (Return current_id, Build (id_ self + 1))
      | Return false => __next__ fuel' (Build (id_ self + 1))
      end
  end.

End IDIterator.

(** ** The generator function *)

(** A generator object of [id_generator]: not started yet (its body has
    not run), suspended at the [yield] with the local [id_number], or
    finished (returned or raised). *)
Inductive generator : Type :=
| GenCreated (id_number : Z)
| GenSuspended (id_number : Z)
| GenFinished.

(** Calling a generator function only builds the generator object. *)
Definition id_generator (id_number : Z) : result generator :=
  Return (GenCreated id_number).

(** [isinstance(id_number, int)]: the embedding takes integers only. *)
Definition isinstance_int (id_number : Z) : bool := true.

(** The [while id_number <= 999999999] loop, entered at its test. *)
Fixpoint id_generator_loop (fuel : nat) (id_number : Z)
  : option (result Z * generator) :=
  match fuel with
  | O => None
  | S fuel' =>
      if id_number <=? 999999999 then
        match check_id_valid id_number with
        | Raise e => Some (Raise e, GenFinished)
        | Return true => Some (Return id_number, GenSuspended id_number)
        | Return false => id_generator_loop fuel' (id_number + 1)
        end
      else Some (Raise StopIteration, GenFinished)
  end.

(** [next(g)]: run the body up to the next [yield], the end or an
    exception.  Resuming after the [yield] continues at [id_number += 1]. *)
Definition gen_next (fuel : nat) (g : generator)
  : option (result Z * generator) :=
  match g with
  | GenCreated id_number =>
      if negb (Nat.eqb (String.length (str id_number)) 9)
         || negb (isinstance_int id_number)
      then Some (Raise ValueError, GenFinished)
      else id_generator_loop fuel id_number
  | GenSuspended id_number => id_generator_loop fuel (id_number + 1)
  | GenFinished => Some (Raise StopIteration, GenFinished)
  end.

(** The search cursor of each interface: the next candidate to test. *)
Definition gen_cursor (g : generator) : option Z :=
  match g with
  | GenCreated id_number => Some id_number
  | GenSuspended id_number => Some (id_number + 1)
  | GenFinished => None
  end.

(** ** Requesting several ids *)

(** [K] successive requests to a search whose single request is [step]:
    the outcome of each request with the state it leaves behind. *)
Fixpoint requests {St : Type} (step : St -> option (result Z * St))
  (K : nat) (s : St) : option (list (result Z * St)) :=
  match K with
  | O => Some []
  | S K' =>
      match step s with
      | None => None
      | Some (r, s') =>
          match requests step K' s' with
          | None => None
          | Some tr => Some ((r, s') :: tr)
          end
      end
  end.

(** The ids that a sequence of requests handed out, in order. *)
Fixpoint emitted {St : Type} (tr : list (result Z * St)) : list Z :=
  match tr with
  | [] => []
  | (Return v, _) :: tr' => v :: emitted tr'
  | (Raise _, _) :: tr' => emitted tr'
  end.

(** The cursors left behind by the requests that handed out an id. *)
Fixpoint cursors_after {St : Type} (cursor : St -> option Z)
  (tr : list (result Z * St)) : list (option Z) :=
  match tr with
  | [] => []
  | (Return _, s) :: tr' => cursor s :: cursors_after cursor tr'
  | (Raise _, _) :: tr' => cursors_after cursor tr'
  end.

Definition it_cursor (self : IDIterator.t) : option Z :=
  Some (IDIterator.id_ self).

(** ** The validator as the specification words it *)

(** Digit at 1-based position [i], counted from the left of the nine. *)
Definition digit_at (id i : Z) : Z := (id / 10 ^ (9 - i)) mod 10.

(** Double at even positions, then replace a value of at least 10 by the
    sum of its two decimal digits. *)
Definition spec_value (id i : Z) : Z :=
  let v := if Z.even i then 2 * digit_at id i else digit_at id i in
  if 10 <=? v then v / 10 + v mod 10 else v.

Definition spec_sum (id : Z) : Z :=
  fold_right (fun i acc => spec_value id i + acc) 0 [1; 2; 3; 4; 5; 6; 7; 8; 9].

Definition spec_is_valid (id : Z) : bool := spec_sum id mod 10 =? 0.

(** The smallest valid id at or after [s]. *)
Definition least_valid_from (s m : Z) : Prop :=
  s <= m /\ check_id_valid m = Return true /\
  forall j, s <= j < m -> check_id_valid j = Return false.

(** ** Vocabulary of the properties *)

Definition is_digit (d : Z) : Prop := 0 <= d < 10.

(** The multiplied list computed on digits instead of characters. *)
Fixpoint weighted_from (index : Z) (ds : list Z) : list Z :=
  match ds with
  | [] => []
  | d :: rest =>
      (if (index + 1) mod 2 =? 0 then d * 2 else d)
        :: weighted_from (index + 1) rest
  end.

Definition checksum (ds : list Z) : Z :=
  sum (map fold_digits (weighted_from 0 ds)).

(** Checksum of the first eight digits of the ids [10 * q + 0 .. 9]. *)
Definition prefix_sum (q : Z) : Z :=
  checksum (map (digit_at (10 * q)) [1; 2; 3; 4; 5; 6; 7; 8]).

Definition check_digit (q : Z) : Z := (- prefix_sum q) mod 10.

(** The checksum of the last [levels] digits of [q], from the right;
    [dbl] tells whether the rightmost one is doubled. *)
Fixpoint tail_sum (levels : nat) (dbl : bool) (q : Z) : Z :=
  match levels with
  | O => 0
  | S l =>
      fold_digits (if dbl then (q mod 10) * 2 else q mod 10)
      + tail_sum l (negb dbl) (q / 10)
  end.

(** Digits as a decimal number of the Standard Library. *)
Definition uint_cons (d : Z) (u : Decimal.uint) : Decimal.uint :=
  match d with
  | 0 => Decimal.D0 u
  | 1 => Decimal.D1 u
  | 2 => Decimal.D2 u
  | 3 => Decimal.D3 u
  | 4 => Decimal.D4 u
  | 5 => Decimal.D5 u
  | 6 => Decimal.D6 u
  | 7 => Decimal.D7 u
  | 8 => Decimal.D8 u
  | _ => Decimal.D9 u
  end.

Fixpoint uint_of_digits (ds : list Z) : Decimal.uint :=
  match ds with
  | [] => Decimal.Nil
  | d :: ds' => uint_cons d (uint_of_digits ds')
  end.

Definition in_range (n : Z) : Prop := 100000000 <= n <= 999999999.

(** No candidate from [c] up to, and not including, [m] is valid. *)
Definition all_invalid (c m : Z) : Prop :=
  forall j, c <= j < m -> check_id_valid j = Return false.

(** Two requests hand out the same id, or neither hands out one. *)
Definition same_outcome (r1 r2 : result Z) : Prop :=
  match r1, r2 with
  | Return a, Return b => a = b
  | Raise _, Raise _ => True
  | _, _ => False
  end.

(** An iterator and a generator object that will hand out the same ids:
    both at the same cursor, or both unable to hand out any id. *)
Definition related (self : IDIterator.t) (g : generator) : Prop :=
  gen_cursor g = Some (IDIterator.id_ self)
  \/ (g = GenFinished /\ ~ in_range (IDIterator.id_ self)).

(** Candidate tests that one request needs at most. *)
Definition scan_bound : nat := 18.

(** An iterator that hands out what a generator object will. *)
Definition shadow (g : generator) : IDIterator.t :=
  match g with
  | GenCreated n => IDIterator.Build n
  | GenSuspended n => IDIterator.Build (n + 1)
  | GenFinished => IDIterator.Build 0
  end.

(** What the specification promises of the ids of one search: all valid,
    none twice, strictly increasing, each leaving the cursor just after
    itself, so that the cursor strictly increases as well. *)
Definition search_invariant {St : Type} (cursor : St -> option Z)
  (tr : list (result Z * St)) : Prop :=
  Forall (fun v => check_id_valid v = Return true) (emitted tr)
  /\ NoDup (emitted tr)
  /\ StronglySorted Z.lt (emitted tr)
  /\ exists cs, cursors_after cursor tr = map Some cs
                /\ cs = map (fun v => v + 1) (emitted tr)
                /\ StronglySorted Z.lt cs.

(** ** The interactive entry point *)

(** [int(s)] for a text of decimal digits, from the left. *)
Fixpoint int_from (acc : Z) (s : string) : Z :=
  match s with
  | EmptyString => acc
  | String c s' => int_from (10 * acc + int_of_char c) s'
  end.

Definition int_of_text (s : string) : Z := int_from 0 s.

(** The messages of the [ValueError]s of the file. *)
Definition msg_check_id : string :=
  "Invalid ID number. Please provide a 9-digit integer.".

Definition msg_generator : string :=
  "Invalid starting ID number. Please provide a 9-digit integer.".

Definition msg_main_id : string :=
  "Invalid ID number. Please enter a 9-digit number greater than or equal to 100000000.".

Definition msg_main_choice : string :=
  "Invalid choice. Please enter 'it' or 'gen'.".

(** An exception on its way through [main], with the message that
    [print(str(error))] shows. *)
Inductive raised : Type :=
| RaisedValueError (message : string)
| RaisedStopIteration.

(** The exception of a pull from [generator]: a [ValueError] of a
    generator that has not started comes from its own check when that
    check fails, and from [check_id_valid] otherwise. *)
Definition pull_error (generator : generator) (e : exn) : raised :=
  match e with
  | StopIteration => RaisedStopIteration
  | ValueError =>
      match generator with
      | GenCreated id_number =>
          if negb (Nat.eqb (String.length (str id_number)) 9)
             || negb (isinstance_int id_number)
          then RaisedValueError msg_generator
          else RaisedValueError msg_check_id
      | _ => RaisedValueError msg_check_id
      end
  end.

(** [for _ in range(count)] around [next(iterator)]: a [StopIteration]
    breaks the loop, a [ValueError] leaves it. *)
Fixpoint main_it_loop (fuel count : nat) (iterator : IDIterator.t)
  (new_ids : list Z) : option (list Z + raised) :=
  match count with
  | O => Some (inl new_ids)
  | S count' =>
      match IDIterator.__next__ fuel iterator with
      | None => None
      | Some (Return new_id, iterator') =>
          main_it_loop fuel count' iterator' (new_ids ++ [new_id])
      | Some (Raise StopIteration, _) => Some (inl new_ids)
      | Some (Raise ValueError, _) =>
          Some (inr (RaisedValueError msg_check_id))
      end
  end.

(** [[next(generator) for _ in range(count)]]: any exception leaves the
    comprehension. *)
Fixpoint main_gen_list (fuel count : nat) (generator : generator)
  : option (list Z + raised) :=
  match count with
  | O => Some (inl [])
  | S count' =>
      match gen_next fuel generator with
      | None => None
      | Some (Return new_id, generator') =>
          match main_gen_list fuel count' generator' with
          | None => None
          | Some (inl new_ids) => Some (inl (new_id :: new_ids))
          | Some (inr e) => Some (inr e)
          end
      | Some (Raise e, _) => Some (inr (pull_error generator e))
      end
  end.

(** [main], as a function of the two lines that the user types: the
    lines that [print] writes, and the exception that leaves [main], if
    any.  The second line is read only when the first one is accepted;
    the prompts of [input] and a [KeyboardInterrupt] are not part of the
    embedding. *)
Definition main (fuel : nat) (new_id choice : string)
  : option (list string * option raised) :=
  let body : option (list Z + raised) :=
    if negb (Nat.eqb (String.length new_id) 9)
       || negb (isnumeric new_id)
       || (int_of_text new_id <? 100000000)
    then Some (inr (RaisedValueError msg_main_id))
    else
      let start_id := int_of_text new_id in
      if String.eqb choice "it" then
        let iterator := IDIterator.Build start_id in
        main_it_loop fuel 10 iterator []
      else if String.eqb choice "gen" then
        let generator := GenCreated start_id in
        main_gen_list fuel 10 generator
      else Some (inr (RaisedValueError msg_main_choice))
  in
  match body with
  | None => None
  | Some (inl new_ids) => Some (map str new_ids, None)
  | Some (inr (RaisedValueError message)) => Some ([message], None)
  | Some (inr RaisedStopIteration) => Some ([], Some RaisedStopIteration)
  end.

(** ** Vocabulary of the further properties *)

(** Text of ASCII characters only.  On other characters Python's
    [isnumeric] and [int] accept more than the decimal digits, and the
    embedding does not follow them there. *)
Fixpoint is_ascii_text (s : string) : bool :=
  match s with
  | EmptyString => true
  | String c s' => (N_of_ascii c <? 128)%N && is_ascii_text s'
  end.

(** Every request of a sequence handed out an id. *)
Definition all_return {St : Type} (tr : list (result Z * St)) : bool :=
  forallb (fun x => match fst x with Return _ => true | Raise _ => false end) tr.

(** [P] holds of the [k] integers from [lo] on. *)
Fixpoint forall_from (k : nat) (lo : Z) (P : Z -> bool) : bool :=
  match k with
  | O => true
  | S k' => P lo && forall_from k' (lo + 1) P
  end.

(** Ten calls of [__next__] from the cursor [s] hand out ten ids. *)
Definition ten_available (s : Z) : bool :=
  match requests (IDIterator.__next__ scan_bound) 10 (IDIterator.Build s) with
  | Some tr => all_return tr
  | None => false
  end.

(** The nine digits [ds], as the integer they write. *)
Definition value_of_digits (ds : list Z) : Z :=
  fold_left (fun acc d => 10 * acc + d) ds 0.

(** The zero-padded text of nine digits of [n]. *)
Definition nine_digit_text (n : Z) : string :=
  text_of_digits (map (digit_at n) [1; 2; 3; 4; 5; 6; 7; 8; 9]).

(** The value that the digit [d] at position [i] adds to the checksum. *)
Definition digit_weight (i d : Z) : Z :=
  let v := if Z.even i then 2 * d else d in
  if 10 <=? v then v / 10 + v mod 10 else v.

(** A generator object whose cursor is at or above 100000000, so that its
    own check, if still to come, passes. *)
Definition gen_live (g : generator) : Prop :=
  match g with
  | GenCreated id_number => in_range id_number
  | GenSuspended id_number => 100000000 <= id_number + 1
  | GenFinished => True
  end.

(** The requests of an iterator that hands out [ids] and then fails [j]
    times at the cursor 1000000000. *)
Definition it_trace (ids : list Z) (j : nat)
  : list (result Z * IDIterator.t) :=
  map (fun m => (Return m, IDIterator.Build (m + 1))) ids
  ++ repeat (Raise ValueError, IDIterator.Build 1000000000) j.

(** The requests of a generator object that hands out [ids] and then
    signals the end [j] times. *)
Definition gen_trace (ids : list Z) (j : nat)
  : list (result Z * generator) :=
  map (fun m => (Return m, GenSuspended m)) ids
  ++ repeat (Raise StopIteration, GenFinished) j.

(** * Properties *)

Ltac zdiv := Z.to_euclidean_division_equations; lia.

(** Evaluate the closed powers of ten in the goal. *)
Ltac pow10_consts :=
  repeat match goal with
  | |- context [ 10 ^ ?e ] =>
      let v := eval vm_compute in (10 ^ e) in change (10 ^ e) with v
  end.

(** ** Decimal text of an integer *)

Section DecimalText.

Lemma dec_digits_app (fuel : nat) :
  forall n acc, dec_digits fuel n acc = dec_digits fuel n [] ++ acc.
Proof.
  induction fuel as [|fuel IH]; intros n acc; simpl; [reflexivity|].
  destruct (n / 10 =? 0); [reflexivity|].
  rewrite (IH _ (_ :: acc)), (IH _ [_]), <- app_assoc. reflexivity.
Qed.

Lemma pow10_pos (k : nat) : 0 < 10 ^ Z.of_nat k.
Proof. apply Z.pow_pos_nonneg; lia. Qed.

Lemma pow10_succ (k : nat) : 10 ^ Z.of_nat (S k) = 10 * 10 ^ Z.of_nat k.
Proof. rewrite Nat2Z.inj_succ, Z.pow_succ_r by lia. reflexivity. Qed.

(** Any fuel that covers the digits of [n] gives the same digits. *)
Lemma dec_digits_fuel_irrel (f1 : nat) :
  forall f2 n acc,
    0 < n < 10 ^ Z.of_nat f1 -> n < 10 ^ Z.of_nat f2 ->
    dec_digits f1 n acc = dec_digits f2 n acc.
Proof.
  induction f1 as [|f1 IH]; intros f2 n acc H1 H2.
  - simpl in H1. lia.
  - destruct f2 as [|f2]; [simpl in H2; lia|].
    rewrite pow10_succ in H1, H2. simpl.
    destruct (Z.eqb_spec (n / 10) 0) as [E|E]; [reflexivity|].
    apply IH; zdiv.
Qed.

Lemma digits_fuel_enough (n : Z) :
  0 <= n -> n < 10 ^ Z.of_nat (digits_fuel n).
Proof.
  intros Hn. unfold digits_fuel.
  destruct (Z.eq_dec n 0) as [->|Hz]; [reflexivity|].
  pose proof (Z.log2_spec n ltac:(lia)) as [_ Hlt].
  pose proof (Z.log2_nonneg n) as Hl.
  rewrite Nat2Z.inj_succ, Z2Nat.id by lia.
  eapply Z.lt_le_trans; [exact Hlt|].
  apply Z.pow_le_mono_l. lia.
Qed.

Lemma digits_of_fuel (f : nat) (n : Z) :
  0 < n < 10 ^ Z.of_nat f -> digits_of n = dec_digits f n [].
Proof.
  intros H. unfold digits_of. apply dec_digits_fuel_irrel; [|lia].
  split; [lia|]. apply digits_fuel_enough; lia.
Qed.

(** The nine digits of a nine-digit number are its digits by position. *)
Lemma digits_of_nine (n : Z) :
  100000000 <= n <= 999999999 ->
  digits_of n = map (digit_at n) [1; 2; 3; 4; 5; 6; 7; 8; 9].
Proof.
  intros H. rewrite (digits_of_fuel 9) by (change (10 ^ Z.of_nat 9) with 1000000000; lia).
  unfold dec_digits.
  repeat match goal with
  | |- context [ ?a =? 0 ] =>
      first
        [ replace (a =? 0) with false
            by (symmetry; apply Z.eqb_neq; clear - H; zdiv)
        | replace (a =? 0) with true
            by (symmetry; apply Z.eqb_eq; clear - H; zdiv) ]
  end.
  unfold digit_at, map.
  pow10_consts.
  repeat (apply (f_equal2 cons); [clear - H; zdiv|]). reflexivity.
Qed.

End DecimalText.

(** ** The validator on digit text *)

Section ValidatorText.

Lemma is_digit_cases (d : Z) :
  is_digit d ->
  d = 0 \/ d = 1 \/ d = 2 \/ d = 3 \/ d = 4 \/
  d = 5 \/ d = 6 \/ d = 7 \/ d = 8 \/ d = 9.
Proof. unfold is_digit. lia. Qed.

Ltac each_digit H :=
  apply is_digit_cases in H;
  repeat (destruct H as [H|H]; [subst; reflexivity|]);
  subst; reflexivity.

Lemma digit_char_numeric (d : Z) :
  is_digit d -> is_numeric_char (digit_char d) = true.
Proof. intros H. each_digit H. Qed.

Lemma int_of_digit_char (d : Z) :
  is_digit d -> int_of_char (digit_char d) = d.
Proof. intros H. each_digit H. Qed.

Lemma length_text_of_digits (ds : list Z) :
  String.length (text_of_digits ds) = List.length ds.
Proof. induction ds as [|d ds IH]; simpl; congruence. Qed.

Lemma all_numeric_text (ds : list Z) :
  Forall is_digit ds -> all_numeric (text_of_digits ds) = true.
Proof.
  induction 1 as [|d ds Hd _ IH]; simpl; [reflexivity|].
  rewrite digit_char_numeric, IH by assumption. reflexivity.
Qed.

Lemma isnumeric_text (ds : list Z) :
  ds <> [] -> Forall is_digit ds -> isnumeric (text_of_digits ds) = true.
Proof.
  intros Hne H. destruct ds as [|d ds]; [congruence|].
  apply (all_numeric_text (d :: ds) H).
Qed.

Lemma multiplied_from_text (ds : list Z) :
  Forall is_digit ds ->
  forall index,
    multiplied_from index (text_of_digits ds) = weighted_from index ds.
Proof.
  induction 1 as [|d ds Hd _ IH]; intros index; simpl; [reflexivity|].
  rewrite int_of_digit_char, IH by assumption. reflexivity.
Qed.

(** On nine digit characters the validator returns the verdict of the
    checksum. *)
Lemma check_id_text_digits (ds : list Z) :
  List.length ds = 9%nat -> Forall is_digit ds ->
  check_id_text (text_of_digits ds) = Return (checksum ds mod 10 =? 0).
Proof.
  intros Hlen Hds. unfold check_id_text, multiplied_list.
  rewrite length_text_of_digits, Hlen, isnumeric_text, multiplied_from_text;
    try assumption.
  - reflexivity.
  - intros ->. discriminate.
Qed.

Lemma digit_at_is_digit (n i : Z) : is_digit (digit_at n i).
Proof.
  unfold is_digit, digit_at. apply Z.mod_pos_bound. lia.
Qed.

Lemma check_id_valid_nine (n : Z) :
  100000000 <= n <= 999999999 ->
  check_id_valid n =
  Return (checksum (map (digit_at n) [1; 2; 3; 4; 5; 6; 7; 8; 9]) mod 10 =? 0).
Proof.
  intros H. unfold check_id_valid.
  replace (str n) with (text_of_digits (digits_of n))
    by (destruct n; [reflexivity|reflexivity|lia]).
  rewrite digits_of_nine by assumption.
  apply check_id_text_digits; [reflexivity|].
  apply Forall_forall. intros d Hd. apply in_map_iff in Hd.
  destruct Hd as [i [<- _]]. apply digit_at_is_digit.
Qed.

Lemma fold_digits_spec (v : Z) :
  fold_digits v = if 10 <=? v then v / 10 + v mod 10 else v.
Proof.
  unfold fold_digits.
  destruct (Z.ltb_spec v 10), (Z.leb_spec 10 v); lia.
Qed.

(** The checksum of the code is the sum that the specification words. *)
Lemma checksum_spec_sum (n : Z) :
  checksum (map (digit_at n) [1; 2; 3; 4; 5; 6; 7; 8; 9]) = spec_sum n.
Proof.
  unfold checksum, sum. simpl.
  cbv [spec_sum fold_right spec_value Z.even].
  rewrite !fold_digits_spec, !(Z.mul_comm (digit_at n _) 2). lia.
Qed.

Lemma check_id_valid_spec (n : Z) :
  100000000 <= n <= 999999999 ->
  check_id_valid n = Return (spec_is_valid n).
Proof.
  intros H. rewrite check_id_valid_nine by assumption.
  unfold spec_is_valid. rewrite checksum_spec_sum. reflexivity.
Qed.

End ValidatorText.

(** ** Inputs that are not nine digits *)

Section Rejection.

Lemma dec_digits_length_le (f : nat) :
  forall n acc, (List.length (dec_digits f n acc) <= f + List.length acc)%nat.
Proof.
  induction f as [|f IH]; intros n acc; simpl; [lia|].
  destruct (n / 10 =? 0); simpl; [lia|].
  specialize (IH (n / 10) (n mod 10 :: acc)). simpl in IH. lia.
Qed.

Lemma dec_digits_length_acc (f : nat) :
  forall n acc, (List.length acc <= List.length (dec_digits f n acc))%nat.
Proof.
  induction f as [|f IH]; intros n acc; simpl; [lia|].
  destruct (n / 10 =? 0); simpl; [lia|].
  specialize (IH (n / 10) (n mod 10 :: acc)). simpl in IH. lia.
Qed.

(** A number of at least [10 ^ k] has more than [k] digits. *)
Lemma dec_digits_length_ge (k : nat) :
  forall f n acc,
    10 ^ Z.of_nat k <= n < 10 ^ Z.of_nat f ->
    (S k + List.length acc <= List.length (dec_digits f n acc))%nat.
Proof.
  induction k as [|k IH]; intros f n acc H.
  - change (10 ^ Z.of_nat 0) with 1 in H.
    destruct f as [|f]; [change (10 ^ Z.of_nat 0) with 1 in H; lia|]. simpl.
    destruct (n / 10 =? 0); simpl; [lia|].
    pose proof (dec_digits_length_acc f (n / 10) (n mod 10 :: acc)) as L.
    simpl in L. lia.
  - pose proof (pow10_pos k) as Hk.
    rewrite pow10_succ in H.
    destruct f as [|f]; [change (10 ^ Z.of_nat 0) with 1 in H; lia|].
    rewrite pow10_succ in H. simpl.
    destruct (Z.eqb_spec (n / 10) 0) as [E|E]; [exfalso; zdiv|].
    specialize (IH f (n / 10) (n mod 10 :: acc)). simpl in IH.
    assert (10 ^ Z.of_nat k <= n / 10 < 10 ^ Z.of_nat f) by zdiv.
    specialize (IH ltac:(assumption)). lia.
Qed.

Lemma str_nonneg (n : Z) : 0 <= n -> str n = text_of_digits (digits_of n).
Proof. destruct n; [reflexivity|reflexivity|lia]. Qed.

Lemma str_length_nine (n : Z) :
  100000000 <= n <= 999999999 -> String.length (str n) = 9%nat.
Proof.
  intros H. rewrite str_nonneg, digits_of_nine by lia. reflexivity.
Qed.

Lemma str_length_short (n : Z) :
  0 <= n < 100000000 -> (String.length (str n) <= 8)%nat.
Proof.
  intros H. destruct (Z.eq_dec n 0) as [->|Hz]; [simpl; lia|].
  rewrite str_nonneg, length_text_of_digits, (digits_of_fuel 8) by
    (change (10 ^ Z.of_nat 8) with 100000000; lia).
  exact (dec_digits_length_le 8 n []).
Qed.

Lemma str_length_long (n : Z) :
  1000000000 <= n -> (10 <= String.length (str n))%nat.
Proof.
  intros H. rewrite str_nonneg, length_text_of_digits by lia.
  pose proof (dec_digits_length_ge 9 (digits_fuel n) n []) as L.
  pose proof (digits_fuel_enough n ltac:(lia)).
  change (10 ^ Z.of_nat 9) with 1000000000 in L.
  exact (L ltac:(lia)).
Qed.

Lemma check_id_text_length (s : string) :
  String.length s <> 9%nat -> check_id_text s = Raise ValueError.
Proof.
  intros H. unfold check_id_text.
  destruct (Nat.eqb_spec (String.length s) 9); [contradiction|reflexivity].
Qed.

(** The text of a negative number starts with a minus sign, which is not
    numeric. *)
Lemma check_id_valid_negative (n : Z) :
  n < 0 -> check_id_valid n = Raise ValueError.
Proof.
  intros H. destruct n as [|p|p]; try lia.
  unfold check_id_valid, check_id_text. simpl str.
  replace (isnumeric _) with false by reflexivity.
  rewrite orb_true_r. reflexivity.
Qed.

Lemma check_id_valid_out_of_range (n : Z) :
  n < 100000000 \/ 999999999 < n -> check_id_valid n = Raise ValueError.
Proof.
  intros H. destruct (Z.lt_ge_cases n 0) as [Hneg|Hpos];
    [apply check_id_valid_negative; assumption|].
  apply check_id_text_length. destruct H as [H|H].
  - pose proof (str_length_short n ltac:(lia)). lia.
  - pose proof (str_length_long n ltac:(lia)). lia.
Qed.

Lemma check_id_valid_in_range (n : Z) :
  100000000 <= n <= 999999999 -> exists b, check_id_valid n = Return b.
Proof. intros H. eexists. apply check_id_valid_spec. assumption. Qed.

Lemma check_id_valid_returns (n : Z) (b : bool) :
  check_id_valid n = Return b -> 100000000 <= n <= 999999999.
Proof.
  intros H.
  destruct (Z.lt_ge_cases n 100000000) as [L|L];
    [rewrite check_id_valid_out_of_range in H by lia; discriminate|].
  destruct (Z.lt_ge_cases 999999999 n) as [G|G];
    [rewrite check_id_valid_out_of_range in H by lia; discriminate|].
  lia.
Qed.

Lemma check_id_valid_raises (n : Z) (e : exn) :
  check_id_valid n = Raise e ->
  e = ValueError /\ (n < 100000000 \/ 999999999 < n).
Proof.
  intros H.
  destruct (Z.lt_ge_cases n 100000000) as [L|L];
    [rewrite check_id_valid_out_of_range in H by lia; split; [congruence|lia]|].
  destruct (Z.lt_ge_cases 999999999 n) as [G|G];
    [rewrite check_id_valid_out_of_range in H by lia; split; [congruence|lia]|].
  destruct (check_id_valid_in_range n ltac:(lia)) as [b Hb]. congruence.
Qed.

End Rejection.

(** ** [str] is the decimal printer of the Standard Library *)

Section DecimalPrinter.

Ltac digit_cases H :=
  apply is_digit_cases in H;
  destruct H as [->|[->|[->|[->|[->|[->|[->|[->|[->| ->]]]]]]]]].

Lemma text_of_digits_uint (ds : list Z) :
  Forall is_digit ds ->
  text_of_digits ds = NilEmpty.string_of_uint (uint_of_digits ds).
Proof.
  induction 1 as [|d ds Hd _ IH]; [reflexivity|].
  cbn [text_of_digits uint_of_digits]. rewrite IH.
  digit_cases Hd; reflexivity.
Qed.

Lemma revapp_uint_cons (d : Z) (u v : Decimal.uint) :
  is_digit d ->
  Decimal.revapp (uint_cons d u) v = Decimal.revapp u (uint_cons d v).
Proof. intros Hd. digit_cases Hd; reflexivity. Qed.

Lemma to_lu_tenfold_plus (q d : N) :
  (0 < q)%N -> (d < 10)%N ->
  Unsigned.to_lu (10 * q + d) = uint_cons (Z.of_N d) (Unsigned.to_lu q).
Proof.
  intros Hq Hd. destruct q as [|p]; [lia|].
  assert (S1 : forall k, (10 * N.pos p + N.succ k = N.succ (10 * N.pos p + k))%N)
    by (intros; lia).
  assert (C : (d = 0 \/ d = 1 \/ d = 2 \/ d = 3 \/ d = 4 \/
               d = 5 \/ d = 6 \/ d = 7 \/ d = 8 \/ d = 9)%N) by lia.
  destruct C as [->|[->|[->|[->|[->|[->|[->|[->|[->| ->]]]]]]]]];
    match goal with
    | |- Unsigned.to_lu (_ + ?k) = _ =>
        let e := eval cbv in (N.to_nat k) in
        change (Unsigned.to_lu (10 * N.pos p + Nat.iter e N.succ 0%N)
                = uint_cons (Z.of_N k) (Unsigned.to_lu (N.pos p)))
    end;
    cbv [Nat.iter nat_rect];
    rewrite ?S1, ?N.add_0_r, ?Unsigned.to_lu_succ, Unsigned.to_ldec_tenfold;
    reflexivity.
Qed.

Lemma to_lu_one_digit (d : N) :
  (0 < d < 10)%N -> Unsigned.to_lu d = uint_cons (Z.of_N d) Decimal.Nil.
Proof.
  intros H.
  assert (C : (d = 1 \/ d = 2 \/ d = 3 \/ d = 4 \/
               d = 5 \/ d = 6 \/ d = 7 \/ d = 8 \/ d = 9)%N) by lia.
  destruct C as [->|[->|[->|[->|[->|[->|[->|[->| ->]]]]]]]]; reflexivity.
Qed.

Lemma dec_digits_to_lu (f : nat) :
  forall (n : N) (acc : list Z),
    (0 < n)%N -> Z.of_N n < 10 ^ Z.of_nat f ->
    uint_of_digits (dec_digits f (Z.of_N n) acc)
    = Decimal.revapp (Unsigned.to_lu n) (uint_of_digits acc).
Proof.
  induction f as [|f IH]; intros n acc Hn Hlt.
  - change (10 ^ Z.of_nat 0) with 1 in Hlt. lia.
  - rewrite pow10_succ in Hlt. cbn [dec_digits].
    pose proof (N.div_mod n 10 ltac:(lia)) as En.
    pose proof (N.mod_lt n 10 ltac:(lia)) as Hmod.
    replace (Z.of_N n / 10) with (Z.of_N (n / 10))
      by (rewrite N2Z.inj_div; reflexivity).
    replace (Z.of_N n mod 10) with (Z.of_N (n mod 10))
      by (rewrite N2Z.inj_mod; reflexivity).
    revert En Hmod. generalize (n / 10)%N (n mod 10)%N. intros q d En Hmod.
    assert (Hd : is_digit (Z.of_N d)) by (unfold is_digit; lia).
    cbn [uint_of_digits].
    destruct (Z.eqb_spec (Z.of_N q) 0) as [E|E].
    + assert (Hq : q = 0%N) by lia. subst q.
      rewrite N.mul_0_r, N.add_0_l in En. subst n.
      rewrite (to_lu_one_digit d) by lia.
      rewrite revapp_uint_cons by assumption. reflexivity.
    + rewrite IH by lia. cbn [uint_of_digits]. subst n.
      rewrite to_lu_tenfold_plus by lia.
      rewrite revapp_uint_cons by assumption. reflexivity.
Qed.

Lemma dec_digits_are_digits (f : nat) :
  forall n acc, Forall is_digit acc -> Forall is_digit (dec_digits f n acc).
Proof.
  induction f as [|f IH]; intros n acc H; cbn [dec_digits]; [assumption|].
  assert (Forall is_digit (n mod 10 :: acc))
    by (constructor; [apply Z.mod_pos_bound; lia|assumption]).
  destruct (n / 10 =? 0); auto.
Qed.

Lemma text_of_positive (p : positive) :
  text_of_digits (digits_of (Zpos p))
  = NilEmpty.string_of_uint (Pos.to_uint p).
Proof.
  rewrite text_of_digits_uint by (apply dec_digits_are_digits; constructor).
  f_equal. unfold digits_of.
  change (Zpos p) with (Z.of_N (Npos p)).
  rewrite dec_digits_to_lu; [reflexivity|lia|].
  apply digits_fuel_enough. lia.
Qed.

(** [str] is the decimal printer of the Standard Library. *)
Lemma str_decimal (n : Z) : str n = NilZero.string_of_int (Z.to_int n).
Proof.
  destruct n as [|p|p]; [reflexivity| |];
    unfold str; rewrite text_of_positive;
    pose proof (Unsigned.to_uint_nonnil p) as Hnil;
    cbn [Z.to_int NilZero.string_of_int NilZero.string_of_uint];
    destruct (Pos.to_uint p); try reflexivity; contradiction.
Qed.

End DecimalPrinter.

(** ** The last digit as a check digit *)

Section CheckDigit.

Lemma checksum_last_digit (q d : Z) :
  is_digit d ->
  checksum (map (digit_at (10 * q + d)) [1; 2; 3; 4; 5; 6; 7; 8; 9])
  = prefix_sum q + d.
Proof.
  intros Hd.
  assert (E9 : digit_at (10 * q + d) 9 = d)
    by (unfold digit_at, is_digit in *; pow10_consts; zdiv).
  assert (E : forall i, 1 <= i <= 8 ->
              digit_at (10 * q + d) i = digit_at (10 * q) i).
  { intros i Hi. unfold digit_at, is_digit in *.
    replace (9 - i) with (Z.succ (8 - i)) by lia.
    rewrite Z.pow_succ_r by lia.
    assert (0 < 10 ^ (8 - i)) by (apply Z.pow_pos_nonneg; lia).
    rewrite <- !Z.div_div by lia.
    do 2 f_equal. zdiv. }
  unfold prefix_sum, checksum, sum.
  generalize dependent (10 * q + d). generalize (10 * q).
  intros n0 n E9 E. simpl.
  rewrite E9, !E by lia.
  rewrite (fold_digits_spec d).
  unfold is_digit in Hd. destruct (Z.leb_spec 10 d); lia.
Qed.

Lemma check_id_valid_decade (q d : Z) :
  10000000 <= q <= 99999999 -> is_digit d ->
  check_id_valid (10 * q + d) = Return ((prefix_sum q + d) mod 10 =? 0).
Proof.
  intros Hq Hd. unfold is_digit in Hd.
  rewrite check_id_valid_nine by lia.
  rewrite checksum_last_digit by assumption. reflexivity.
Qed.

Lemma check_digit_is_digit (q : Z) : is_digit (check_digit q).
Proof. unfold is_digit, check_digit. apply Z.mod_pos_bound. lia. Qed.

Lemma check_digit_valid (q : Z) :
  10000000 <= q <= 99999999 ->
  check_id_valid (10 * q + check_digit q) = Return true.
Proof.
  intros Hq. rewrite check_id_valid_decade
    by (assumption || apply check_digit_is_digit).
  f_equal. apply Z.eqb_eq. unfold check_digit. zdiv.
Qed.

Lemma check_digit_unique (q d : Z) :
  10000000 <= q <= 99999999 -> is_digit d ->
  check_id_valid (10 * q + d) = Return true -> d = check_digit q.
Proof.
  intros Hq Hd H. rewrite check_id_valid_decade in H by assumption.
  injection H as H. apply Z.eqb_eq in H.
  unfold check_digit, is_digit in *. zdiv.
Qed.

(** From one decade to the next.
    The check digit moves by 2 to 9 (modulo 10) from a decade to the
    next one, never by 0 or 1: stepping the eight leading digits by one
    turns [k] trailing nines into zeros (each adds 1 modulo 10) and
    raises one digit (by 1 where it is not doubled, by 2 or by 3 modulo
    10 where it is). *)

Lemma fold_digits_single (d : Z) : is_digit d -> fold_digits d = d.
Proof.
  unfold is_digit, fold_digits. intros H.
  destruct (Z.ltb_spec d 10); lia.
Qed.

Lemma fold_digits_double (d : Z) :
  is_digit d ->
  fold_digits (d * 2) = if d <? 5 then 2 * d else 2 * d - 9.
Proof.
  unfold is_digit, fold_digits. intros H.
  destruct (Z.ltb_spec (d * 2) 10), (Z.ltb_spec d 5); zdiv.
Qed.

Lemma tail_value_step (dbl : bool) (d : Z) :
  0 <= d < 9 ->
  let v x := fold_digits (if dbl then x * 2 else x) in
  (v (d + 1) - v d) mod 10 = if dbl then (if d =? 4 then 3 else 2) else 1.
Proof.
  intros H v. subst v. destruct dbl; cbv beta.
  - rewrite !fold_digits_double by (unfold is_digit; lia).
    destruct (Z.ltb_spec (d + 1) 5), (Z.ltb_spec d 5), (Z.eqb_spec d 4);
      try lia; zdiv.
  - rewrite !fold_digits_single by (unfold is_digit; lia). zdiv.
Qed.

Lemma tail_value_wrap (dbl : bool) :
  let v x := fold_digits (if dbl then x * 2 else x) in
  v 0 - v 9 = -9.
Proof. destruct dbl; reflexivity. Qed.

Lemma tail_sum_succ_bounds (l : nat) :
  forall q,
    (l <= 8)%nat -> 0 <= q -> q + 1 < 10 ^ Z.of_nat l ->
    let D := (tail_sum l (Nat.even l) (q + 1)
              - tail_sum l (Nat.even l) q) mod 10 in
    (if Nat.even l then 2 else 1) <= D <= Z.of_nat l + 1.
Proof.
  induction l as [|l IH]; intros q Hl Hq Hlt.
  - change (10 ^ Z.of_nat 0) with 1 in Hlt. lia.
  - rewrite pow10_succ in Hlt. rewrite Nat.even_succ, <- Nat.negb_even.
    cbn [tail_sum]. rewrite Bool.negb_involutive.
    set (dbl := negb (Nat.even l)).
    destruct (Z.eq_dec (q mod 10) 9) as [E9|N9].
    + assert (E0 : (q + 1) mod 10 = 0) by zdiv.
      assert (Ed : (q + 1) / 10 = q / 10 + 1) by zdiv.
      rewrite E0, E9, Ed.
      pose proof (tail_value_wrap dbl) as W. cbv zeta beta in W.
      destruct l as [|l']; [change (10 ^ Z.of_nat 0) with 1 in Hlt; zdiv|].
      specialize (IH (q / 10) ltac:(lia) ltac:(zdiv) ltac:(zdiv)).
      cbv zeta in IH.
      set (T1 := tail_sum (S l') (Nat.even (S l')) (q / 10 + 1)) in *.
      set (T0 := tail_sum (S l') (Nat.even (S l')) (q / 10)) in *.
      subst dbl. destruct (Nat.even (S l')); cbn [negb] in *;
        zdiv.
    + assert (E1 : (q + 1) mod 10 = q mod 10 + 1) by zdiv.
      assert (Ed : (q + 1) / 10 = q / 10) by zdiv.
      rewrite E1, Ed.
      pose proof (tail_value_step dbl (q mod 10) ltac:(zdiv)) as V.
      cbv zeta beta in V.
      set (T0 := tail_sum l (Nat.even l) (q / 10)) in *.
      match goal with
      | |- _ <= (?a + T0 - (?b + T0)) mod 10 <= _ =>
          replace (a + T0 - (b + T0)) with (a - b) by lia
      end.
      rewrite V. subst dbl.
      destruct (Nat.even l) eqn:Ev; cbn [negb].
      * lia.
      * destruct l as [|l']; [discriminate|].
        destruct (q mod 10 =? 4); lia.
Qed.

Lemma prefix_sum_tail_sum (q : Z) : prefix_sum q = tail_sum 8 true q.
Proof.
  assert (E : forall i, 1 <= i <= 8 ->
              digit_at (10 * q) i = (q / 10 ^ (8 - i)) mod 10).
  { intros i Hi. unfold digit_at.
    replace (9 - i) with (Z.succ (8 - i)) by lia.
    rewrite Z.pow_succ_r by lia.
    assert (0 < 10 ^ (8 - i)) by (apply Z.pow_pos_nonneg; lia).
    rewrite <- Z.div_div by lia. do 2 f_equal. zdiv. }
  unfold prefix_sum, checksum, sum.
  generalize dependent (10 * q). intros n E. simpl.
  rewrite !E by lia. pow10_consts.
  rewrite !Z.div_div by lia. rewrite Z.div_1_r. simpl Z.mul. lia.
Qed.

Lemma check_digit_next_decade (q : Z) :
  10000000 <= q -> q + 1 <= 99999999 ->
  check_digit q = 0 -> check_digit (q + 1) <> 9.
Proof.
  intros Hlo Hhi H0 H9.
  pose proof (tail_sum_succ_bounds 8 q ltac:(lia) ltac:(lia)) as B.
  change (10 ^ Z.of_nat 8) with 100000000 in B.
  specialize (B ltac:(lia)). cbv zeta in B.
  change (Nat.even 8) with true in B.
  rewrite <- !prefix_sum_tail_sum in B.
  unfold check_digit in *. zdiv.
Qed.

(** Every 18 consecutive nine-digit numbers hold a valid id. *)
Lemma valid_within_bound (c : Z) :
  100000000 <= c -> c + 17 <= 999999999 ->
  exists m, c <= m <= c + 17 /\ check_id_valid m = Return true.
Proof.
  intros Hlo Hhi. set (q := c / 10).
  pose proof (check_digit_is_digit q) as Hd.
  pose proof (check_digit_is_digit (q + 1)) as Hd1.
  unfold is_digit in Hd, Hd1.
  assert (Hk : c mod 10 = 0
               \/ (c mod 10 = 1 /\ 1 <= check_digit q)
               \/ (c mod 10 = 1 /\ check_digit q = 0)
               \/ 2 <= c mod 10) by zdiv.
  destruct Hk as [Hk|[[Hk Ha]|[[Hk Ha]|Hk]]].
  - exists (10 * q + check_digit q). split; [subst q; zdiv|].
    apply check_digit_valid. subst q. zdiv.
  - exists (10 * q + check_digit q). split; [subst q; zdiv|].
    apply check_digit_valid. subst q. zdiv.
  - assert (Hq : 10000000 <= q /\ q + 1 <= 99999999) by (subst q; zdiv).
    pose proof (check_digit_next_decade q (proj1 Hq) (proj2 Hq) Ha).
    exists (10 * (q + 1) + check_digit (q + 1)). split; [subst q; zdiv|].
    apply check_digit_valid. lia.
  - assert (Hq : 10000000 <= q /\ q + 1 <= 99999999) by (subst q; zdiv).
    exists (10 * (q + 1) + check_digit (q + 1)). split; [subst q; zdiv|].
    apply check_digit_valid. lia.
Qed.

End CheckDigit.

(** ** One request to a forward search *)

Section OneRequest.

Import IDIterator.

Lemma next_skip (k : nat) :
  forall f c,
    all_invalid c (c + Z.of_nat k) ->
    __next__ (k + f) (Build c) = __next__ f (Build (c + Z.of_nat k)).
Proof.
  induction k as [|k IH]; intros f c H.
  - simpl. rewrite Z.add_0_r. reflexivity.
  - cbn [Nat.add __next__ id_].
    rewrite (H c) by lia.
    rewrite IH by (intros j Hj; apply H; lia).
    do 2 f_equal. lia.
Qed.

Lemma loop_skip (k : nat) :
  forall f c,
    all_invalid c (c + Z.of_nat k) ->
    id_generator_loop (k + f) c = id_generator_loop f (c + Z.of_nat k).
Proof.
  induction k as [|k IH]; intros f c H.
  - simpl. rewrite Z.add_0_r. reflexivity.
  - cbn [Nat.add id_generator_loop].
    pose proof (check_id_valid_returns c false (H c ltac:(lia))) as R.
    destruct (Z.leb_spec c 999999999); [|lia].
    rewrite (H c) by lia.
    rewrite IH by (intros j Hj; apply H; lia).
    f_equal. lia.
Qed.

(** Below a candidate that stops the scan there is a first one. *)
Lemma first_stop (k : nat) :
  forall c,
    (exists m, c <= m < c + Z.of_nat k /\ check_id_valid m <> Return false) ->
    exists m, c <= m < c + Z.of_nat k /\
              check_id_valid m <> Return false /\ all_invalid c m.
Proof.
  induction k as [|k IH]; intros c [m [Hm Hstop]]; [lia|].
  destruct (check_id_valid c) as [[|]|e] eqn:E.
  - exists c. repeat split; try lia; [congruence|intros j Hj; lia].
  - assert (Hne : m <> c) by congruence.
    destruct (IH (c + 1)) as [m' [Hm' [Hs' Ha']]];
      [exists m; split; [lia|assumption]|].
    exists m'. repeat split; try lia; [assumption|].
    intros j Hj. destruct (Z.eq_dec j c) as [->|]; [assumption|].
    apply Ha'. lia.
  - exists c. repeat split; try lia; [congruence|intros j Hj; lia].
Qed.

(** From every nine-digit cursor the scan stops within [scan_bound]
    candidates: at a valid id, or at 1000000000. *)
Lemma stop_within_bound (c : Z) :
  in_range c ->
  exists m, c <= m < c + Z.of_nat scan_bound /\
            check_id_valid m <> Return false /\ all_invalid c m.
Proof.
  intros Hc. unfold in_range in Hc. apply first_stop.
  destruct (Z.le_gt_cases (c + 17) 999999999) as [H|H].
  - destruct (valid_within_bound c) as [m [Hm Hv]]; try lia.
    exists m. split; [unfold scan_bound; lia|congruence].
  - exists 1000000000. split; [unfold scan_bound; lia|].
    rewrite check_id_valid_out_of_range by lia. discriminate.
Qed.

Lemma next_total (self : t) :
  exists r, forall extra, __next__ (scan_bound + extra) self = Some r.
Proof.
  destruct self as [c].
  destruct (check_id_valid c) as [b|e] eqn:E.
  - apply check_id_valid_returns in E.
    destruct (stop_within_bound c E) as [m [Hm [Hs Ha]]].
    remember (Z.to_nat (m - c)) as k eqn:Hk.
    assert (Hmk : m = c + Z.of_nat k) by lia.
    assert (Hf : forall extra,
               (scan_bound + extra = k + S (17 - k + extra))%nat)
      by (intros; unfold scan_bound in *; lia).
    destruct (check_id_valid m) as [[|]|e] eqn:Em; [| congruence |].
    + exists (Return m, Build (m + 1)). intros extra.
      rewrite Hf, next_skip by (rewrite <- Hmk; assumption).
      rewrite <- Hmk. cbn [__next__ id_generator_loop id_]. rewrite Em. reflexivity.
    + exists (Raise e, Build m). intros extra.
      rewrite Hf, next_skip by (rewrite <- Hmk; assumption).
      rewrite <- Hmk. cbn [__next__ id_generator_loop id_]. rewrite Em. reflexivity.
  - exists (Raise e, Build c). intros extra.
    change (scan_bound + extra)%nat with (S (17 + extra)).
    cbn [__next__ id_generator_loop id_]. rewrite E. reflexivity.
Qed.

Lemma loop_total (c : Z) :
  exists r, forall extra, id_generator_loop (scan_bound + extra) c = Some r.
Proof.
  destruct (Z.le_gt_cases c 999999999) as [Hle|Hgt].
  - destruct (check_id_valid c) as [b|e] eqn:E.
    + apply check_id_valid_returns in E.
      destruct (stop_within_bound c E) as [m [Hm [Hs Ha]]].
      remember (Z.to_nat (m - c)) as k eqn:Hk.
      assert (Hmk : m = c + Z.of_nat k) by lia.
      assert (Hf : forall extra,
                 (scan_bound + extra = k + S (17 - k + extra))%nat)
        by (intros; unfold scan_bound in *; lia).
      destruct (Z.leb_spec m 999999999) as [Hm9|Hm9].
      * destruct (check_id_valid m) as [[|]|e] eqn:Em; [| congruence |].
        -- exists (Return m, GenSuspended m). intros extra.
           rewrite Hf, loop_skip by (rewrite <- Hmk; assumption).
           rewrite <- Hmk. cbn [__next__ id_generator_loop id_].
           destruct (Z.leb_spec m 999999999); [|lia].
           rewrite Em. reflexivity.
        -- exists (Raise e, GenFinished). intros extra.
           rewrite Hf, loop_skip by (rewrite <- Hmk; assumption).
           rewrite <- Hmk. cbn [__next__ id_generator_loop id_].
           destruct (Z.leb_spec m 999999999); [|lia].
           rewrite Em. reflexivity.
      * exists (Raise StopIteration, GenFinished). intros extra.
        rewrite Hf, loop_skip by (rewrite <- Hmk; assumption).
        rewrite <- Hmk. cbn [__next__ id_generator_loop id_].
        destruct (Z.leb_spec m 999999999); [lia|reflexivity].
    + exists (Raise e, GenFinished). intros extra.
    change (scan_bound + extra)%nat with (S (17 + extra)).
    cbn [__next__ id_generator_loop id_].
      destruct (Z.leb_spec c 999999999); [|lia].
      rewrite E. reflexivity.
  - exists (Raise StopIteration, GenFinished). intros extra.
    change (scan_bound + extra)%nat with (S (17 + extra)).
    cbn [__next__ id_generator_loop id_].
    destruct (Z.leb_spec c 999999999); [lia|reflexivity].
Qed.

Lemma gen_next_total (g : generator) :
  exists r, forall extra, gen_next (scan_bound + extra) g = Some r.
Proof.
  destruct g as [n|n|]; unfold gen_next.
  - destruct (negb (Nat.eqb (String.length (str n)) 9)
              || negb (isinstance_int n)).
    + eexists. intros extra. reflexivity.
    + apply loop_total.
  - apply loop_total.
  - eexists. intros extra. reflexivity.
Qed.

End OneRequest.

(** What one request can answer, whatever the fuel. *)

Section Outcomes.

Import IDIterator.

Lemma next_outcome (f : nat) :
  forall c r self',
    __next__ f (Build c) = Some (r, self') ->
    exists m, c <= m /\ all_invalid c m /\
      ((r = Return m /\ self' = Build (m + 1) /\
        check_id_valid m = Return true)
       \/ (r = Raise ValueError /\ self' = Build m /\ ~ in_range m)).
Proof.
  induction f as [|f IH]; intros c r self' H; [discriminate|].
  cbn [__next__ id_] in H.
  destruct (check_id_valid c) as [[|]|e] eqn:E.
  - injection H as <- <-. exists c.
    split; [lia|]. split; [intros j Hj; lia|]. left. auto.
  - destruct (IH _ _ _ H) as [m [Hm [Ha Hr]]].
    exists m. split; [lia|]. split; [|exact Hr].
    intros j Hj. destruct (Z.eq_dec j c) as [->|]; [assumption|].
    apply Ha. lia.
  - injection H as <- <-. apply check_id_valid_raises in E.
    destruct E as [-> E]. exists c.
    split; [lia|]. split; [intros j Hj; lia|]. right.
    unfold in_range. repeat split; lia.
Qed.

Lemma loop_outcome (f : nat) :
  forall c r g',
    id_generator_loop f c = Some (r, g') ->
    exists m, c <= m /\ all_invalid c m /\
      ((r = Return m /\ g' = GenSuspended m /\
        check_id_valid m = Return true)
       \/ (r = Raise StopIteration /\ g' = GenFinished /\ 999999999 < m)
       \/ (r = Raise ValueError /\ g' = GenFinished /\ m < 100000000)).
Proof.
  induction f as [|f IH]; intros c r g' H; [discriminate|].
  cbn [id_generator_loop] in H.
  destruct (Z.leb_spec c 999999999) as [Hle|Hgt].
  - destruct (check_id_valid c) as [[|]|e] eqn:E.
    + injection H as <- <-. exists c.
      split; [lia|]. split; [intros j Hj; lia|]. left. auto.
    + destruct (IH _ _ _ H) as [m [Hm [Ha Hr]]].
      exists m. split; [lia|]. split; [|exact Hr].
      intros j Hj. destruct (Z.eq_dec j c) as [->|]; [assumption|].
      apply Ha. lia.
    + injection H as <- <-. apply check_id_valid_raises in E.
      destruct E as [-> E]. exists c.
      split; [lia|]. split; [intros j Hj; lia|]. right. right.
      repeat split; lia.
  - injection H as <- <-. exists c.
    split; [lia|]. split; [intros j Hj; lia|]. right. left. auto.
Qed.

(** The two loops, started at the same candidate, agree. *)
Lemma loops_agree (f : nat) :
  forall c r self',
    __next__ f (Build c) = Some (r, self') ->
    exists r' g',
      id_generator_loop f c = Some (r', g') /\
      same_outcome r r' /\ related self' g'.
Proof.
  induction f as [|f IH]; intros c r self' H; [discriminate|].
  cbn [__next__ id_generator_loop id_] in *.
  destruct (check_id_valid c) as [[|]|e] eqn:E.
  - apply check_id_valid_returns in E.
    destruct (Z.leb_spec c 999999999); [|lia].
    injection H as <- <-. do 2 eexists. split; [reflexivity|].
    split; [reflexivity|]. left. reflexivity.
  - apply check_id_valid_returns in E.
    destruct (Z.leb_spec c 999999999); [|lia].
    apply IH. assumption.
  - injection H as <- <-. apply check_id_valid_raises in E.
    assert (R : related (Build c) GenFinished)
      by (right; split; [reflexivity|unfold in_range; simpl; lia]).
    destruct (c <=? 999999999); do 2 eexists;
      (split; [reflexivity|]); split; simpl; auto.
Qed.

Lemma next_dead (f : nat) (c : Z) :
  ~ in_range c ->
  __next__ (S f) (Build c) = Some (Raise ValueError, Build c).
Proof.
  intros H. cbn [__next__ id_].
  rewrite check_id_valid_out_of_range; [reflexivity|].
  unfold in_range in H. lia.
Qed.

Lemma request_agree (f : nat) (self : t) (g : generator) :
  related self g ->
  forall r self',
    __next__ f self = Some (r, self') ->
    exists r' g',
      gen_next f g = Some (r', g') /\
      same_outcome r r' /\ related self' g'.
Proof.
  intros R r self' H. destruct self as [c].
  assert (Dead : ~ in_range c ->
                 r = Raise ValueError /\ self' = Build c).
  { intros Hc. destruct f as [|f]; [discriminate|].
    rewrite next_dead in H by assumption. injection H as <- <-. auto. }
  destruct R as [R|[-> R]]; simpl in R.
  - destruct g as [n|n|]; simpl in R; try discriminate;
      injection R as R; unfold gen_next.
    + subst n.
      destruct (Nat.eqb_spec (String.length (str c)) 9) as [L|L]; simpl.
      * apply loops_agree. assumption.
      * assert (Hc : ~ in_range c)
          by (intros Hc; apply L, str_length_nine, Hc).
        destruct (Dead Hc) as [-> ->].
        do 2 eexists. split; [reflexivity|]. split; [exact I|].
        right. auto.
    + subst c. apply loops_agree. assumption.
  - destruct (Dead R) as [-> ->].
    do 2 eexists. split; [reflexivity|]. split; [exact I|].
    right. auto.
Qed.

End Outcomes.

(** ** Sequences of requests *)

Section Requests.

Import IDIterator.

Lemma requests_total {St : Type} (step : nat -> St -> option (result Z * St)) :
  (forall s, exists r, forall extra, step (scan_bound + extra)%nat s = Some r) ->
  forall K s,
    exists tr, forall extra,
      requests (step (scan_bound + extra)%nat) K s = Some tr.
Proof.
  intros Hstep K. induction K as [|K IH]; intros s.
  - exists []. reflexivity.
  - destruct (Hstep s) as [[r s'] Hr]. destruct (IH s') as [tr Htr].
    exists ((r, s') :: tr). intros extra. cbn [requests].
    rewrite Hr, Htr. reflexivity.
Qed.

Lemma requests_agree (f : nat) (K : nat) :
  forall self g tr,
    related self g ->
    requests (__next__ f) K self = Some tr ->
    exists tr',
      requests (gen_next f) K g = Some tr' /\
      Forall2 (fun x y => same_outcome (fst x) (fst y)) tr tr'.
Proof.
  induction K as [|K IH]; intros self g tr R H; simpl in H.
  - injection H as <-. exists []. split; [reflexivity|constructor].
  - destruct (__next__ f self) as [[r self']|] eqn:E; [|discriminate].
    destruct (requests (__next__ f) K self') as [tr0|] eqn:E0;
      [|discriminate].
    injection H as <-.
    destruct (request_agree f self g R r self' E) as [r' [g' [Eg [So R']]]].
    destruct (IH self' g' tr0 R' E0) as [tr0' [Eg0 F]].
    exists ((r', g') :: tr0'). simpl. rewrite Eg, Eg0.
    split; [reflexivity|]. constructor; assumption.
Qed.

Lemma emitted_agree {S1 S2 : Type}
  (tr1 : list (result Z * S1)) (tr2 : list (result Z * S2)) :
  Forall2 (fun x y => same_outcome (fst x) (fst y)) tr1 tr2 ->
  emitted tr1 = emitted tr2.
Proof.
  induction 1 as [|[r1 s1] [r2 s2] l1 l2 Hso _ IH]; [reflexivity|].
  simpl in *. destruct r1, r2; simpl in Hso; try contradiction;
    congruence.
Qed.

Lemma sorted_nodup (l : list Z) : StronglySorted Z.lt l -> NoDup l.
Proof.
  induction 1 as [|a l _ IH Hall]; constructor; [|assumption].
  intros Hin. rewrite Forall_forall in Hall.
  specialize (Hall a Hin). lia.
Qed.

(** The ids of an iterator: valid, not below the cursor, increasing,
    and each leaves the cursor just after itself. *)
Lemma next_requests_inv (f : nat) (K : nat) :
  forall c tr,
    requests (__next__ f) K (Build c) = Some tr ->
    Forall (fun v => c <= v /\ check_id_valid v = Return true) (emitted tr)
    /\ StronglySorted Z.lt (emitted tr)
    /\ cursors_after it_cursor tr = map (fun v => Some (v + 1)) (emitted tr).
Proof.
  induction K as [|K IH]; intros c tr H; simpl in H.
  - injection H as <-. simpl. repeat split; constructor.
  - destruct (__next__ f (Build c)) as [[r self']|] eqn:E; [|discriminate].
    destruct (requests (__next__ f) K self') as [tr0|] eqn:E0;
      [|discriminate].
    injection H as <-.
    destruct (next_outcome f c r self' E)
      as [m [Hm [_ [[-> [-> Hv]]|[-> [-> _]]]]]];
      destruct (IH _ _ E0) as [Hall [Hsort Hcur]]; simpl.
    + split; [|split].
      * constructor; [auto|].
        eapply Forall_impl; [|exact Hall]. simpl. intros v [? ?].
        split; [lia|assumption].
      * constructor; [assumption|].
        eapply Forall_impl; [|exact Hall]. simpl. intros v [? ?]. lia.
      * rewrite Hcur. reflexivity.
    + split; [|split]; try assumption.
      eapply Forall_impl; [|exact Hall]. simpl. intros v [? ?].
      split; [lia|assumption].
Qed.

Lemma gen_next_suspends (f : nat) (g g' : generator) (m : Z) :
  gen_next f g = Some (Return m, g') -> g' = GenSuspended m.
Proof.
  intros H.
  assert (L : forall c, id_generator_loop f c = Some (Return m, g') ->
                        g' = GenSuspended m).
  { intros c Hc. destruct (loop_outcome f c _ _ Hc)
      as [m' [_ [_ [[Er [-> _]]|[[Er _]|[Er _]]]]]]; congruence. }
  destruct g as [n|n|]; unfold gen_next in H.
  - destruct (negb (Nat.eqb (String.length (str n)) 9)
              || negb (isinstance_int n)); [discriminate|].
    eapply L, H.
  - eapply L, H.
  - discriminate.
Qed.

Lemma gen_requests_cursors (f : nat) (K : nat) :
  forall g tr,
    requests (gen_next f) K g = Some tr ->
    cursors_after gen_cursor tr = map (fun v => Some (v + 1)) (emitted tr).
Proof.
  induction K as [|K IH]; intros g tr H; simpl in H.
  - injection H as <-. reflexivity.
  - destruct (gen_next f g) as [[r g']|] eqn:E; [|discriminate].
    destruct (requests (gen_next f) K g') as [tr0|] eqn:E0; [|discriminate].
    injection H as <-. specialize (IH _ _ E0).
    destruct r as [m|e]; simpl; [|assumption].
    rewrite (gen_next_suspends _ _ _ _ E), IH. reflexivity.
Qed.

Lemma shadow_related (g : generator) : related (shadow g) g.
Proof.
  destruct g; [left; reflexivity|left; reflexivity|].
  right. split; [reflexivity|]. unfold in_range. simpl. lia.
Qed.

End Requests.

(** ** The first request of a fresh search *)

Section FirstRequest.

Import IDIterator.

Lemma gen_next_created (f : nat) (s : Z) :
  in_range s -> gen_next f (GenCreated s) = id_generator_loop f s.
Proof.
  intros H. unfold gen_next. rewrite str_length_nine by assumption.
  reflexivity.
Qed.

(** A nine-digit start: both interfaces hand out the least valid id at
    or after it, or the range holds none and neither hands out an id. *)
Lemma first_request_cases (s : Z) :
  in_range s ->
  (exists m,
      least_valid_from s m /\
      forall extra,
        __next__ (scan_bound + extra) (Build s)
        = Some (Return m, Build (m + 1)) /\
        gen_next (scan_bound + extra) (GenCreated s)
        = Some (Return m, GenSuspended m))
  \/ (all_invalid s 1000000000 /\
      forall extra,
        __next__ (scan_bound + extra) (Build s)
        = Some (Raise ValueError, Build 1000000000) /\
        gen_next (scan_bound + extra) (GenCreated s)
        = Some (Raise StopIteration, GenFinished)).
Proof.
  intros Hs. pose proof Hs as Hs'. unfold in_range in Hs'.
  destruct (next_total (Build s)) as [[r self'] Hit].
  destruct (loop_total s) as [[r' g'] Hgen].
  destruct (next_outcome _ _ _ _ (Hit 0%nat)) as [m [Hm [Ha Hr]]].
  destruct (loop_outcome _ _ _ _ (Hgen 0%nat)) as [m' [Hm' [Ha' Hr']]].
  destruct Hr as [[-> [-> Hv]]|[-> [-> Hout]]].
  - left. exists m. split; [repeat split; assumption|].
    pose proof (check_id_valid_returns _ _ Hv) as Rm.
    assert (m' = m /\ r' = Return m /\ g' = GenSuspended m) as [_ [-> ->]].
    { destruct Hr' as [[-> [-> Hv']]|[[_ [_ Hgt]]|[_ [_ Hlt]]]];
        [|exfalso|exfalso; lia].
      - assert (m' = m); [|subst; auto].
        destruct (Z.lt_trichotomy m m') as [L|[E|L]]; [|auto|].
        + rewrite (Ha' m) in Hv by lia. discriminate.
        + rewrite (Ha m') in Hv' by lia. discriminate.
      - rewrite (Ha' m) in Hv by lia. discriminate. }
    intros extra. rewrite gen_next_created by assumption. auto.
  - right.
    assert (m = 1000000000).
    { unfold in_range in Hout.
      destruct (Z.lt_trichotomy m 1000000000) as [L|[E|L]];
        [lia|assumption|].
      pose proof (Ha 1000000000 ltac:(lia)) as C.
      rewrite check_id_valid_out_of_range in C by lia. discriminate. }
    subst m. split; [assumption|].
    assert (r' = Raise StopIteration /\ g' = GenFinished) as [-> ->].
    { destruct Hr' as [[_ [_ Hv']]|[[-> [-> _]]|[_ [_ Hlt]]]];
        [exfalso|auto|exfalso; lia].
      pose proof (check_id_valid_returns _ _ Hv') as Rm.
      rewrite (Ha m') in Hv' by lia. discriminate. }
    intros extra. rewrite gen_next_created by assumption. auto.
Qed.

Lemma requests_dead (f K : nat) (c : Z) :
  ~ in_range c ->
  requests (__next__ (S f)) K (Build c)
  = Some (repeat (Raise ValueError, Build c) K).
Proof.
  intros H. induction K as [|K IH]; [reflexivity|].
  cbn [requests repeat]. rewrite next_dead, IH by assumption. reflexivity.
Qed.

Lemma gen_next_rejects (f : nat) (start : Z) :
  ~ in_range start ->
  gen_next (S f) (GenCreated start) = Some (Raise ValueError, GenFinished).
Proof.
  intros H. unfold gen_next.
  destruct (negb (Nat.eqb (String.length (str start)) 9)
            || negb (isinstance_int start)) eqn:E; [reflexivity|].
  assert (Hr : check_id_valid start = Raise ValueError)
    by (apply check_id_valid_out_of_range; unfold in_range in H; lia).
  cbn [id_generator_loop]. rewrite Hr.
  destruct (Z.leb_spec start 999999999) as [L|L]; [reflexivity|].
  apply orb_false_elim in E. destruct E as [E _].
  apply negb_false_iff, Nat.eqb_eq in E.
  pose proof (str_length_long start ltac:(lia)). lia.
Qed.

End FirstRequest.

(** ** The embedding at work *)

Example str_nine_digits : str 123456782 = "123456782"%string.
Proof. reflexivity. Qed.

Example str_negative : str (-12345678) = "-12345678"%string.
Proof. reflexivity. Qed.

Example str_zero : str 0 = "0"%string.
Proof. reflexivity. Qed.

Example check_id_valid_example : check_id_valid 123456782 = Return true.
Proof. reflexivity. Qed.

Example check_id_text_leading_zeros :
  check_id_text "000000000" = Return true.
Proof. reflexivity. Qed.

Example first_three_ids :
  option_map emitted
    (requests (IDIterator.__next__ scan_bound) 3 (IDIterator.Build 100000000))
  = Some [100000009; 100000017; 100000025].
Proof. vm_compute. reflexivity. Qed.

(** * The claims of the specification *)

(** C1. For every nine-digit id, [check_id_valid] returns the verdict of
    the algorithm as the specification words it: index the digits 1..9
    from the left, double those at even positions, replace every value of
    at least 10 by the sum of its two digits, add the nine values; the id
    is valid if and only if the sum is divisible by 10. *)
Theorem validator_computes_spec_checksum (id : Z) :
  100000000 <= id <= 999999999 ->
  check_id_valid id = Return (spec_is_valid id)
  /\ (check_id_valid id = Return true <-> spec_sum id mod 10 = 0).
Proof.
  intros H. pose proof (check_id_valid_spec id H) as E.
  split; [exact E|]. rewrite E. unfold spec_is_valid. split.
  - intros R. injection R as R. apply Z.eqb_eq. exact R.
  - intros R. f_equal. apply Z.eqb_eq. exact R.
Qed.

Lemma validator_computes_spec_checksum_witness :
  100000000 <= 123456782 <= 999999999
  /\ check_id_valid 123456782 = Return (spec_is_valid 123456782)
  /\ (check_id_valid 123456782 = Return true
      <-> spec_sum 123456782 mod 10 = 0).
Proof.
  split; [lia|]. apply (validator_computes_spec_checksum 123456782). lia.
Defined.

(** After an id [m] was handed out, the next request is the first
    request of a search started at [m + 1]. *)
Lemma resumed_request_cases (m : Z) :
  check_id_valid m = Return true ->
  (exists m2,
      least_valid_from (m + 1) m2 /\
      forall extra,
        IDIterator.__next__ (scan_bound + extra) (IDIterator.Build (m + 1))
        = Some (Return m2, IDIterator.Build (m2 + 1)) /\
        gen_next (scan_bound + extra) (GenSuspended m)
        = Some (Return m2, GenSuspended m2))
  \/ (all_invalid (m + 1) 1000000000 /\
      forall extra,
        IDIterator.__next__ (scan_bound + extra) (IDIterator.Build (m + 1))
        = Some (Raise ValueError, IDIterator.Build 1000000000) /\
        gen_next (scan_bound + extra) (GenSuspended m)
        = Some (Raise StopIteration, GenFinished)).
Proof.
  intros Hv. pose proof (check_id_valid_returns _ _ Hv) as Rm.
  assert (Hlast : check_id_valid 999999999 = Return false) by reflexivity.
  assert (Hne : m <> 999999999) by congruence.
  assert (Hs : in_range (m + 1)) by (unfold in_range; lia).
  change (forall extra : nat,
             gen_next (scan_bound + extra) (GenSuspended m) = ?x)
    with (forall extra : nat,
             id_generator_loop (scan_bound + extra) (m + 1) = x).
  destruct (first_request_cases (m + 1) Hs) as [[m2 [Hl H]]|[Ha H]].
  - left. exists m2. split; [assumption|]. intros extra.
    destruct (H extra) as [Hi Hg].
    rewrite gen_next_created in Hg by assumption.
    split; [exact Hi|exact Hg].
  - right. split; [assumption|]. intros extra.
    destruct (H extra) as [Hi Hg].
    rewrite gen_next_created in Hg by assumption.
    split; [exact Hi|exact Hg].
Qed.

(** C2. For every nine-digit start [s], the first request to a fresh
    iterator and to a fresh generator hands out the smallest valid id [m]
    at or after [s] and leaves the cursor just after it; the request that
    follows scans from [m + 1]: it hands out the smallest valid id at or
    after [m + 1], or ends the search when none is left.  (When no valid
    id is left at or after [s], neither interface hands out an id.) *)
Theorem first_id_is_least_valid (s : Z) (extra : nat) :
  in_range s ->
  exists self g,
    IDIterator.__init__ s = Return self /\ id_generator s = Return g /\
    ((exists m self' g',
         least_valid_from s m /\
         IDIterator.__next__ (scan_bound + extra) self = Some (Return m, self') /\
         gen_next (scan_bound + extra) g = Some (Return m, g') /\
         it_cursor self' = Some (m + 1) /\ gen_cursor g' = Some (m + 1) /\
         ((exists m2 self'' g'',
              least_valid_from (m + 1) m2 /\
              IDIterator.__next__ (scan_bound + extra) self'
              = Some (Return m2, self'') /\
              gen_next (scan_bound + extra) g' = Some (Return m2, g'') /\
              it_cursor self'' = Some (m2 + 1) /\
              gen_cursor g'' = Some (m2 + 1))
          \/ (all_invalid (m + 1) 1000000000 /\
              (exists self'', IDIterator.__next__ (scan_bound + extra) self'
                              = Some (Raise ValueError, self'')) /\
              gen_next (scan_bound + extra) g'
              = Some (Raise StopIteration, GenFinished))))
     \/ (all_invalid s 1000000000 /\
         (exists self', IDIterator.__next__ (scan_bound + extra) self
                        = Some (Raise ValueError, self')) /\
         gen_next (scan_bound + extra) g
         = Some (Raise StopIteration, GenFinished))).
Proof.
  intros Hs. exists (IDIterator.Build s), (GenCreated s).
  split; [reflexivity|]. split; [reflexivity|].
  destruct (first_request_cases s Hs) as [[m [Hl H]]|[Ha H]];
    destruct (H extra) as [Hi Hg].
  - left. exists m, (IDIterator.Build (m + 1)), (GenSuspended m).
    split; [assumption|]. split; [assumption|]. split; [assumption|].
    split; [reflexivity|]. split; [reflexivity|].
    destruct Hl as [_ [Hv _]].
    destruct (resumed_request_cases m Hv) as [[m2 [Hl2 H2]]|[Ha2 H2]];
      destruct (H2 extra) as [Hi2 Hg2].
    + left. exists m2, (IDIterator.Build (m2 + 1)), (GenSuspended m2). auto.
    + right. split; [assumption|]. split; [eexists; exact Hi2|exact Hg2].
  - right. split; [assumption|]. split; [eexists; exact Hi|exact Hg].
Qed.

Lemma first_id_is_least_valid_witness :
  in_range 100000042 /\
  exists self g,
    IDIterator.__init__ 100000042 = Return self /\
    id_generator 100000042 = Return g /\
    ((exists m self' g',
         least_valid_from 100000042 m /\
         IDIterator.__next__ (scan_bound + 0) self = Some (Return m, self') /\
         gen_next (scan_bound + 0) g = Some (Return m, g') /\
         it_cursor self' = Some (m + 1) /\ gen_cursor g' = Some (m + 1) /\
         ((exists m2 self'' g'',
              least_valid_from (m + 1) m2 /\
              IDIterator.__next__ (scan_bound + 0) self'
              = Some (Return m2, self'') /\
              gen_next (scan_bound + 0) g' = Some (Return m2, g'') /\
              it_cursor self'' = Some (m2 + 1) /\
              gen_cursor g'' = Some (m2 + 1))
          \/ (all_invalid (m + 1) 1000000000 /\
              (exists self'', IDIterator.__next__ (scan_bound + 0) self'
                              = Some (Raise ValueError, self'')) /\
              gen_next (scan_bound + 0) g'
              = Some (Raise StopIteration, GenFinished))))
     \/ (all_invalid 100000042 1000000000 /\
         (exists self', IDIterator.__next__ (scan_bound + 0) self
                        = Some (Raise ValueError, self')) /\
         gen_next (scan_bound + 0) g
         = Some (Raise StopIteration, GenFinished))).
Proof.
  split; [unfold in_range; lia|].
  apply (first_id_is_least_valid 100000042 0). unfold in_range. lia.
Defined.

(** The two requests of the search from 100000042, run: the second one
    does not hand out 100000058 again. *)
Example second_request_moves_on :
  option_map emitted
    (requests (IDIterator.__next__ scan_bound) 2 (IDIterator.Build 100000042))
  = Some [100000058; 100000066]
  /\ option_map emitted
       (requests (gen_next scan_bound) 2 (GenCreated 100000042))
     = Some [100000058; 100000066].
Proof. vm_compute. auto. Qed.

(** C3. For every start and every [K], [K] calls of [__next__] on a fresh
    [IDIterator(start)] and [K] pulls from [id_generator(start)] hand out
    the same ids, request by request and in the same order. *)
Theorem interfaces_hand_out_same_ids (start : Z) (K extra : nat) :
  exists self g tr_it tr_gen,
    IDIterator.__init__ start = Return self /\
    id_generator start = Return g /\
    requests (IDIterator.__next__ (scan_bound + extra)) K self = Some tr_it /\
    requests (gen_next (scan_bound + extra)) K g = Some tr_gen /\
    Forall2 (fun x y => same_outcome (fst x) (fst y)) tr_it tr_gen /\
    emitted tr_it = emitted tr_gen.
Proof.
  exists (IDIterator.Build start), (GenCreated start).
  destruct (requests_total IDIterator.__next__ next_total K
              (IDIterator.Build start)) as [tr_it Hit].
  destruct (requests_agree _ K (IDIterator.Build start) (GenCreated start)
              tr_it (or_introl eq_refl) (Hit extra)) as [tr_gen [Hg F]].
  exists tr_it, tr_gen. repeat split; auto.
  apply emitted_agree. assumption.
Qed.

(** C4, as the code has it.  Neither constructor checks its argument:
    [IDIterator(start)] stores it and [id_generator(start)] only builds the
    generator object.  For a start that is not a nine-digit number the
    [ValueError] comes with the first request, which hands out no id. *)
Theorem invalid_start_fails_at_first_request (start : Z) (fuel : nat) :
  ~ in_range start ->
  IDIterator.__init__ start = Return (IDIterator.Build start) /\
  id_generator start = Return (GenCreated start) /\
  IDIterator.__next__ (S fuel) (IDIterator.Build start)
  = Some (Raise ValueError, IDIterator.Build start) /\
  gen_next (S fuel) (GenCreated start) = Some (Raise ValueError, GenFinished).
Proof.
  intros H. split; [reflexivity|]. split; [reflexivity|]. split.
  - apply next_dead. assumption.
  - apply gen_next_rejects. assumption.
Qed.

Lemma invalid_start_fails_at_first_request_witness :
  ~ in_range (-12345678) /\
  IDIterator.__init__ (-12345678) = Return (IDIterator.Build (-12345678)) /\
  id_generator (-12345678) = Return (GenCreated (-12345678)) /\
  IDIterator.__next__ 1 (IDIterator.Build (-12345678))
  = Some (Raise ValueError, IDIterator.Build (-12345678)) /\
  gen_next 1 (GenCreated (-12345678)) = Some (Raise ValueError, GenFinished).
Proof.
  split; [unfold in_range; lia|].
  apply (invalid_start_fails_at_first_request (-12345678) 0).
  unfold in_range. lia.
Defined.

(** C4, as the specification states it, fails: constructing either
    interface with the start 5 raises nothing. *)
Lemma construction_does_not_validate :
  ~ in_range 5 /\
  IDIterator.__init__ 5 <> Raise ValueError /\
  id_generator 5 <> Raise ValueError.
Proof. split; [unfold in_range; lia|]. split; discriminate. Qed.

(** C5 at the upper bound: 999999999 is not valid; the generator started
    there signals [StopIteration], the iterator raises [ValueError] from
    [check_id_valid 1000000000]. *)
Theorem iterator_raises_ValueError_at_upper_bound :
  check_id_valid 999999999 = Return false /\
  gen_next scan_bound (GenCreated 999999999)
  = Some (Raise StopIteration, GenFinished) /\
  IDIterator.__next__ scan_bound (IDIterator.Build 999999999)
  = Some (Raise ValueError, IDIterator.Build 1000000000).
Proof. vm_compute. auto. Qed.

Lemma sorted_map_succ (l : list Z) :
  StronglySorted Z.lt l -> StronglySorted Z.lt (map (fun v => v + 1) l).
Proof.
  induction 1 as [|a l _ IH Hall]; simpl; constructor; [assumption|].
  rewrite Forall_map. eapply Forall_impl; [|exact Hall].
  simpl. intros v Hv. lia.
Qed.

Lemma search_invariant_intro {St : Type} (cursor : St -> option Z)
  (tr : list (result Z * St)) (c : Z) :
  Forall (fun v => c <= v /\ check_id_valid v = Return true) (emitted tr) ->
  StronglySorted Z.lt (emitted tr) ->
  cursors_after cursor tr = map (fun v => Some (v + 1)) (emitted tr) ->
  search_invariant cursor tr.
Proof.
  intros Hall Hsort Hcur. unfold search_invariant.
  split; [eapply Forall_impl; [|exact Hall]; simpl; tauto|].
  split; [apply sorted_nodup; assumption|].
  split; [assumption|].
  exists (map (fun v => v + 1) (emitted tr)).
  rewrite map_map. auto using sorted_map_succ.
Qed.

(** C6. Whatever the state of an iterator or of a generator object, and
    however many requests follow: every id handed out is valid, no id is
    handed out twice, and the ids and the cursor strictly increase. *)
Theorem emitted_ids_valid_and_increasing
  (self : IDIterator.t) (g : generator) (K extra : nat) :
  exists tr_it tr_gen,
    requests (IDIterator.__next__ (scan_bound + extra)) K self = Some tr_it /\
    requests (gen_next (scan_bound + extra)) K g = Some tr_gen /\
    search_invariant it_cursor tr_it /\
    search_invariant gen_cursor tr_gen.
Proof.
  destruct (requests_total IDIterator.__next__ next_total K self)
    as [tr_it Hit].
  destruct (requests_total IDIterator.__next__ next_total K (shadow g))
    as [tr_sh Hsh].
  destruct (requests_agree _ K (shadow g) g tr_sh (shadow_related g)
              (Hsh extra)) as [tr_gen [Hg F]].
  exists tr_it, tr_gen. split; [apply Hit|]. split; [exact Hg|].
  split.
  - destruct self as [c].
    destruct (next_requests_inv _ _ _ _ (Hit extra)) as [Hall [Hsort Hcur]].
    eapply search_invariant_intro; eassumption.
  - pose proof (emitted_agree _ _ F) as Eq.
    pose proof (gen_requests_cursors _ _ _ _ Hg) as Hcur.
    specialize (Hsh extra). destruct (shadow g) as [c].
    destruct (next_requests_inv _ _ _ _ Hsh) as [Hall [Hsort _]].
    rewrite Eq in Hall, Hsort.
    eapply search_invariant_intro; eassumption.
Qed.

(** C7. For every integer outside [100000000, 999999999] (negative, fewer
    than nine digits, more than nine digits) [check_id_valid] raises
    [ValueError] and returns no verdict. *)
Theorem validator_rejects_non_nine_digit (id : Z) :
  id < 100000000 \/ 999999999 < id ->
  check_id_valid id = Raise ValueError
  /\ forall b, check_id_valid id <> Return b.
Proof.
  intros H. rewrite check_id_valid_out_of_range by assumption.
  split; [reflexivity|discriminate].
Qed.

Lemma validator_rejects_non_nine_digit_witness :
  (-12345678 < 100000000 \/ 999999999 < -12345678)
  /\ check_id_valid (-12345678) = Raise ValueError
  /\ forall b, check_id_valid (-12345678) <> Return b.
Proof.
  split; [left; lia|].
  apply (validator_rejects_non_nine_digit (-12345678)). left. lia.
Defined.

(** C8. Every request terminates, whatever the state of the search: one
    call of [__next__] and one pull from the generator are over after at
    most [scan_bound] candidate tests, and more fuel changes nothing. *)
Theorem every_request_terminates (self : IDIterator.t) (g : generator) :
  exists r_it r_gen,
    forall extra,
      IDIterator.__next__ (scan_bound + extra) self = Some r_it /\
      gen_next (scan_bound + extra) g = Some r_gen.
Proof.
  destruct (next_total self) as [r_it Hit].
  destruct (gen_next_total g) as [r_gen Hgen].
  exists r_it, r_gen. auto.
Qed.

(** C9, as the code has it.  Among the ten ids that share the first eight
    digits of a nine-digit [n] exactly one is valid.  Consequently every
    18 consecutive nine-digit numbers hold a valid id, and one request
    tests at most 18 candidates. *)
Theorem check_digit_and_scan_bound (n : Z) :
  in_range n ->
  (exists d,
      is_digit d /\ check_id_valid (10 * (n / 10) + d) = Return true /\
      forall d', is_digit d' ->
                 check_id_valid (10 * (n / 10) + d') = Return true -> d' = d)
  /\ (n + 17 <= 999999999 ->
      exists m, n <= m <= n + 17 /\ check_id_valid m = Return true)
  /\ (exists r, forall extra,
         IDIterator.__next__ (scan_bound + extra) (IDIterator.Build n)
         = Some r)
  /\ (exists r, forall extra,
         gen_next (scan_bound + extra) (GenCreated n) = Some r).
Proof.
  intros H. unfold in_range in H.
  assert (Hq : 10000000 <= n / 10 <= 99999999) by zdiv.
  split; [|split; [|split]].
  - exists (check_digit (n / 10)).
    split; [apply check_digit_is_digit|].
    split; [apply check_digit_valid; assumption|].
    intros d' Hd' Hv. apply check_digit_unique; assumption.
  - intros Hhi. apply valid_within_bound; lia.
  - apply next_total.
  - apply gen_next_total.
Qed.

Lemma check_digit_and_scan_bound_witness :
  in_range 100000042 /\
  (exists d,
      is_digit d /\
      check_id_valid (10 * (100000042 / 10) + d) = Return true /\
      forall d', is_digit d' ->
                 check_id_valid (10 * (100000042 / 10) + d') = Return true ->
                 d' = d)
  /\ (exists m, 100000042 <= m <= 100000042 + 17 /\
                check_id_valid m = Return true)
  /\ (exists r, forall extra,
         IDIterator.__next__ (scan_bound + extra) (IDIterator.Build 100000042)
         = Some r)
  /\ (exists r, forall extra,
         gen_next (scan_bound + extra) (GenCreated 100000042) = Some r).
Proof.
  assert (H : in_range 100000042) by (unfold in_range; lia).
  destruct (check_digit_and_scan_bound 100000042 H) as [A [B [C D]]].
  split; [exact H|]. split; [exact A|]. split; [apply B; lia|].
  split; [exact C|exact D].
Defined.

(** C9, as stated, fails: none of the ten numbers 100000042 .. 100000051
    is valid, and ten candidate tests do not finish the request there. *)
Lemma ten_candidates_are_not_enough :
  in_range 100000042 /\
  ~ (exists m, 100000042 <= m <= 100000042 + 9 /\
               check_id_valid m = Return true) /\
  IDIterator.__next__ 10 (IDIterator.Build 100000042) = None.
Proof.
  split; [unfold in_range; lia|]. split; [|vm_compute; reflexivity].
  intros [m [Hm Hv]].
  assert (C : m = 100000042 \/ m = 100000043 \/ m = 100000044 \/
              m = 100000045 \/ m = 100000046 \/ m = 100000047 \/
              m = 100000048 \/ m = 100000049 \/ m = 100000050 \/
              m = 100000051) by lia.
  destruct C as [->|[->|[->|[->|[->|[->|[->|[->|[->| ->]]]]]]]]];
    vm_compute in Hv; discriminate.
Qed.

(** The bound of 18 candidate tests is reached: after 100000900 the next
    valid id is 100000918. *)
Example scan_bound_is_reached :
  IDIterator.__next__ 17 (IDIterator.Build 100000901) = None /\
  IDIterator.__next__ 18 (IDIterator.Build 100000901)
  = Some (Return 100000918, IDIterator.Build 100000919).
Proof. vm_compute. auto. Qed.

(** C10. Once the cursor of an iterator is above 999999999, every call of
    [__next__] raises the [ValueError] of [check_id_valid] and leaves the
    cursor where it is, so that any number of further calls fail alike. *)
Theorem exhausted_iterator_keeps_raising (c : Z) (fuel K : nat) :
  999999999 < c ->
  check_id_valid c = Raise ValueError /\
  IDIterator.__next__ (S fuel) (IDIterator.Build c)
  = Some (Raise ValueError, IDIterator.Build c) /\
  requests (IDIterator.__next__ (S fuel)) K (IDIterator.Build c)
  = Some (repeat (Raise ValueError, IDIterator.Build c) K).
Proof.
  intros H.
  assert (Hc : ~ in_range c) by (unfold in_range; lia).
  split; [apply check_id_valid_out_of_range; lia|].
  split; [apply next_dead|apply requests_dead]; assumption.
Qed.

Lemma exhausted_iterator_keeps_raising_witness :
  999999999 < 1000000000 /\
  check_id_valid 1000000000 = Raise ValueError /\
  IDIterator.__next__ 1 (IDIterator.Build 1000000000)
  = Some (Raise ValueError, IDIterator.Build 1000000000) /\
  requests (IDIterator.__next__ 1) 3 (IDIterator.Build 1000000000)
  = Some (repeat (Raise ValueError, IDIterator.Build 1000000000) 3).
Proof.
  split; [lia|]. apply (exhausted_iterator_keeps_raising 1000000000 0 3). lia.
Defined.

(** * Further properties of the code *)

(** ** Text and integer *)

Section TextAndInteger.

Lemma int_from_text_of_digits (ds : list Z) :
  Forall is_digit ds ->
  forall acc,
    int_from acc (text_of_digits ds)
    = fold_left (fun a d => 10 * a + d) ds acc.
Proof.
  induction 1 as [|d ds Hd _ IH]; intros acc; [reflexivity|].
  cbn [text_of_digits int_from fold_left].
  rewrite int_of_digit_char by assumption. apply IH.
Qed.

Lemma nine_digits_are_digits (n : Z) :
  Forall is_digit (map (digit_at n) [1; 2; 3; 4; 5; 6; 7; 8; 9]).
Proof.
  apply Forall_forall. intros d Hd. apply in_map_iff in Hd.
  destruct Hd as [i [<- _]]. apply digit_at_is_digit.
Qed.

(** The digits of [n] by position write [n]. *)
Lemma value_of_nine_digits (n : Z) :
  0 <= n <= 999999999 ->
  value_of_digits (map (digit_at n) [1; 2; 3; 4; 5; 6; 7; 8; 9]) = n.
Proof.
  intros H. unfold value_of_digits, digit_at. cbn [map fold_left].
  pow10_consts.
  assert (E0 : n mod 10 = n - 10 * (n / 10)) by zdiv.
  assert (E1 : (n / 10) mod 10 = n / 10 - 10 * (n / 100)) by zdiv.
  assert (E2 : (n / 100) mod 10 = n / 100 - 10 * (n / 1000)) by zdiv.
  assert (E3 : (n / 1000) mod 10 = n / 1000 - 10 * (n / 10000)) by zdiv.
  assert (E4 : (n / 10000) mod 10 = n / 10000 - 10 * (n / 100000)) by zdiv.
  assert (E5 : (n / 100000) mod 10 = n / 100000 - 10 * (n / 1000000)) by zdiv.
  assert (E6 : (n / 1000000) mod 10 = n / 1000000 - 10 * (n / 10000000))
    by zdiv.
  assert (E7 : (n / 10000000) mod 10 = n / 10000000 - 10 * (n / 100000000))
    by zdiv.
  assert (E8 : (n / 100000000) mod 10 = n / 100000000) by zdiv.
  rewrite Z.div_1_r, E0, E1, E2, E3, E4, E5, E6, E7, E8. lia.
Qed.

Lemma int_of_nine_digit_text (n : Z) :
  0 <= n <= 999999999 -> int_of_text (nine_digit_text n) = n.
Proof.
  intros H. unfold int_of_text, nine_digit_text.
  rewrite int_from_text_of_digits by apply nine_digits_are_digits.
  apply value_of_nine_digits. assumption.
Qed.

Lemma str_nine_digit_text (n : Z) :
  100000000 <= n <= 999999999 -> str n = nine_digit_text n.
Proof.
  intros H. unfold nine_digit_text.
  rewrite str_nonneg, digits_of_nine by lia. reflexivity.
Qed.

Lemma nine_digit_text_numeric (n : Z) :
  String.length (nine_digit_text n) = 9%nat
  /\ isnumeric (nine_digit_text n) = true.
Proof.
  unfold nine_digit_text. split.
  - rewrite length_text_of_digits. reflexivity.
  - apply isnumeric_text; [discriminate|apply nine_digits_are_digits].
Qed.

Lemma numeric_char_digit (c : ascii) :
  is_numeric_char c = true ->
  is_digit (int_of_char c) /\ digit_char (int_of_char c) = c.
Proof.
  destruct c as [[] [] [] [] [] [] [] []]; intros H;
    try discriminate H; split; (reflexivity || (unfold is_digit; cbv; split; congruence)).
Qed.

Lemma numeric_text_digits (s : string) :
  all_numeric s = true ->
  exists ds, Forall is_digit ds /\ s = text_of_digits ds
             /\ List.length ds = String.length s.
Proof.
  induction s as [|c s IH]; intros H.
  - exists []. repeat split. constructor.
  - cbn [all_numeric] in H. apply andb_prop in H. destruct H as [Hc Hs].
    destruct (IH Hs) as [ds [Hds [-> Hlen]]].
    destruct (numeric_char_digit c Hc) as [Hd Hr].
    exists (int_of_char c :: ds). split; [constructor; assumption|].
    split; [cbn [text_of_digits]; rewrite Hr; reflexivity|].
    cbn [List.length String.length]. rewrite Hlen. reflexivity.
Qed.

(** Nine digits that write a number of at least 100000000 are the text
    of that number. *)
Lemma accepted_text_is_str (s : string) :
  String.length s = 9%nat -> isnumeric s = true ->
  100000000 <= int_of_text s ->
  in_range (int_of_text s) /\ str (int_of_text s) = s.
Proof.
  intros Hlen Hnum Hlo.
  assert (Hall : all_numeric s = true)
    by (destruct s; [discriminate|exact Hnum]).
  destruct (numeric_text_digits s Hall) as [ds [Hds [-> Hl]]].
  rewrite Hlen in Hl.
  unfold int_of_text in *.
  rewrite int_from_text_of_digits in * by assumption.
  destruct ds as [|d1 [|d2 [|d3 [|d4 [|d5 [|d6 [|d7 [|d8 [|d9 [|]]]]]]]]]];
    try discriminate Hl.
  repeat match goal with
  | H : Forall _ (_ :: _) |- _ => inversion H; subst; clear H
  end.
  unfold is_digit in *. cbn [fold_left] in *.
  match goal with
  | |- in_range ?v /\ _ => set (v0 := v) in *
  end.
  assert (Hr : in_range v0) by (unfold in_range; subst v0; lia).
  split; [assumption|].
  rewrite str_nonneg, digits_of_nine by (unfold in_range in Hr; lia).
  unfold digit_at. cbn [map]. pow10_consts.
  cbn [text_of_digits].
  clear Hall Hnum Hlen Hl.
  repeat (apply (f_equal2 String); [f_equal; subst v0; zdiv|]). reflexivity.
Qed.

Lemma str_is_accepted (n : Z) :
  in_range n ->
  String.length (str n) = 9%nat /\ isnumeric (str n) = true
  /\ int_of_text (str n) = n.
Proof.
  intros H. unfold in_range in H. rewrite str_nine_digit_text by assumption.
  destruct (nine_digit_text_numeric n) as [L N].
  repeat split; try assumption. apply int_of_nine_digit_text. lia.
Qed.

End TextAndInteger.

(** ** What the checksum detects *)

Section ErrorDetection.

Ltac digit_pair Ha Hb :=
  apply is_digit_cases in Ha; apply is_digit_cases in Hb;
  destruct Ha as [->|[->|[->|[->|[->|[->|[->|[->|[->| ->]]]]]]]]];
  destruct Hb as [->|[->|[->|[->|[->|[->|[->|[->|[->| ->]]]]]]]]].

(** At every position the ten digits add ten different values modulo 10. *)
Lemma digit_weight_injective (i a b : Z) :
  is_digit a -> is_digit b -> a <> b ->
  (digit_weight i a - digit_weight i b) mod 10 <> 0.
Proof.
  intros Ha Hb Hne. unfold digit_weight.
  destruct (Z.even i); digit_pair Ha Hb;
    solve [congruence | vm_compute; discriminate].
Qed.


Lemma spec_sum_weights (n : Z) :
  spec_sum n
  = digit_weight 1 (digit_at n 1) + digit_weight 2 (digit_at n 2)
    + digit_weight 3 (digit_at n 3) + digit_weight 4 (digit_at n 4)
    + digit_weight 5 (digit_at n 5) + digit_weight 6 (digit_at n 6)
    + digit_weight 7 (digit_at n 7) + digit_weight 8 (digit_at n 8)
    + digit_weight 9 (digit_at n 9).
Proof.
  unfold spec_sum. cbn [fold_right].
  change (spec_value n) with (fun i => digit_weight i (digit_at n i)).
  cbv beta. lia.
Qed.

Lemma valid_iff_spec_sum (n : Z) :
  in_range n ->
  (check_id_valid n = Return true <-> spec_sum n mod 10 = 0)
  /\ (check_id_valid n = Return false <-> spec_sum n mod 10 <> 0).
Proof.
  intros H. rewrite check_id_valid_spec by exact H. unfold spec_is_valid.
  destruct (Z.eqb_spec (spec_sum n mod 10) 0); split; split;
    congruence.
Qed.

Ltac other_digits Hoth :=
  repeat match goal with
  | |- context [ digit_at ?m ?j ] =>
      rewrite <- (Hoth j) by lia
  end.

Lemma single_digit_sum (n n' i : Z) :
  1 <= i <= 9 ->
  digit_at n i <> digit_at n' i ->
  (forall j, 1 <= j <= 9 -> j <> i -> digit_at n j = digit_at n' j) ->
  (spec_sum n - spec_sum n') mod 10 <> 0.
Proof.
  intros Hi Hne Hoth. rewrite !spec_sum_weights.
  pose proof (digit_weight_injective i _ _ (digit_at_is_digit n i)
                (digit_at_is_digit n' i) Hne) as W.
  assert (C : i = 1 \/ i = 2 \/ i = 3 \/ i = 4 \/ i = 5 \/
              i = 6 \/ i = 7 \/ i = 8 \/ i = 9) by lia.
  destruct C as [->|[->|[->|[->|[->|[->|[->|[->| ->]]]]]]]];
    repeat match goal with
    | |- context [ digit_at n' ?j ] =>
        rewrite <- (Hoth j) by lia
    end;
    match goal with
    | |- (?x - ?y) mod 10 <> 0 =>
        match type of W with
        | (?a - ?b) mod 10 <> 0 =>
            replace (x - y) with (a - b) by lia; exact W
        end
    end.
Qed.


End ErrorDetection.

(** X1. [check_id_valid] on a text of nine digits, leading zeros and all:
    for every [n] from 0 to 999999999 the zero-padded text of [n] gets the
    verdict of the checksum of its nine digits, although the integer [n]
    itself is rejected when it is below 100000000. *)
Theorem text_with_leading_zeros_gets_verdict (n : Z) :
  0 <= n <= 999999999 ->
  String.length (nine_digit_text n) = 9%nat /\
  int_of_text (nine_digit_text n) = n /\
  check_id_text (nine_digit_text n) = Return (spec_is_valid n) /\
  (n < 100000000 -> check_id_valid n = Raise ValueError) /\
  (100000000 <= n -> nine_digit_text n = str n).
Proof.
  intros H. split; [apply nine_digit_text_numeric|].
  split; [apply int_of_nine_digit_text; assumption|].
  split; [|split].
  - unfold nine_digit_text. rewrite check_id_text_digits;
      [|reflexivity|apply nine_digits_are_digits].
    rewrite checksum_spec_sum. reflexivity.
  - intros Hlt. apply check_id_valid_out_of_range. lia.
  - intros Hge. symmetry. apply str_nine_digit_text. lia.
Qed.

Lemma text_with_leading_zeros_gets_verdict_witness :
  0 <= 18 <= 999999999 /\
  String.length (nine_digit_text 18) = 9%nat /\
  int_of_text (nine_digit_text 18) = 18 /\
  check_id_text (nine_digit_text 18) = Return (spec_is_valid 18) /\
  check_id_valid 18 = Raise ValueError.
Proof.
  assert (H : 0 <= 18 <= 999999999) by lia.
  destruct (text_with_leading_zeros_gets_verdict 18 H) as [A [B [C [D _]]]].
  split; [exact H|]. split; [exact A|]. split; [exact B|].
  split; [exact C|apply D; lia].
Defined.

(** X2. The checksum detects every single wrong digit: when two
    nine-digit ids differ in exactly one digit position and one of them
    is valid, the other one is not. *)
Theorem single_digit_error_is_detected (n n' i : Z) :
  in_range n -> in_range n' -> 1 <= i <= 9 ->
  digit_at n i <> digit_at n' i ->
  (forall j, 1 <= j <= 9 -> j <> i -> digit_at n j = digit_at n' j) ->
  check_id_valid n = Return true ->
  check_id_valid n' = Return false.
Proof.
  intros Hn Hn' Hi Hne Hoth Hv.
  pose proof (single_digit_sum n n' i Hi Hne Hoth) as D.
  apply (valid_iff_spec_sum n Hn) in Hv.
  apply (valid_iff_spec_sum n' Hn'). zdiv.
Qed.

Lemma single_digit_error_is_detected_witness :
  check_id_valid 123456782 = Return true /\
  check_id_valid 123956782 = Return false.
Proof.
  split; [reflexivity|].
  apply (single_digit_error_is_detected 123456782 123956782 4);
    try (unfold in_range; lia); try reflexivity.
  - vm_compute. discriminate.
  - intros j Hj Hne.
    assert (C : j = 1 \/ j = 2 \/ j = 3 \/ j = 5 \/ j = 6 \/
                j = 7 \/ j = 8 \/ j = 9) by lia.
    destruct C as [->|[->|[->|[->|[->|[->|[->| ->]]]]]]]; reflexivity.
Defined.



(** The exchange of a neighbouring 0 and 9 is not detected. *)
Example transposition_09_is_not_detected :
  check_id_valid 109000000 = Return true /\
  check_id_valid 190000000 = Return true.
Proof. vm_compute. auto. Qed.

(** ** The whole sequence of a search *)

Section WholeSequence.

Import IDIterator.

Lemma requests_cons {St : Type} (step : St -> option (result Z * St))
  (K : nat) (s : St) (tr : list (result Z * St)) :
  requests step (S K) s = Some tr ->
  exists r s' tr0,
    step s = Some (r, s') /\ requests step K s' = Some tr0 /\
    tr = (r, s') :: tr0.
Proof.
  cbn [requests]. intros H.
  destruct (step s) as [[r s']|] eqn:E; [|discriminate].
  destruct (requests step K s') as [tr0|] eqn:E0; [|discriminate].
  injection H as <-. exists r, s', tr0. auto.
Qed.

Lemma requests_length {St : Type} (step : St -> option (result Z * St))
  (K : nat) :
  forall s tr, requests step K s = Some tr -> List.length tr = K.
Proof.
  induction K as [|K IH]; intros s tr H.
  - injection H as <-. reflexivity.
  - apply requests_cons in H. destruct H as [r [s' [tr0 [_ [H0 ->]]]]].
    simpl. f_equal. eapply IH, H0.
Qed.

Lemma next_raise_is_bound (f : nat) (c : Z) (e : exn) (self' : t) :
  100000000 <= c <= 1000000000 ->
  __next__ f (Build c) = Some (Raise e, self') ->
  e = ValueError /\ self' = Build 1000000000 /\ all_invalid c 1000000000.
Proof.
  intros Hc H.
  destruct (next_outcome _ _ _ _ H) as [m [Hm [Ha [[E _]|[E [-> Hout]]]]]];
    [discriminate|].
  injection E as ->. unfold in_range in Hout.
  assert (m = 1000000000); [|subst; auto].
  destruct (Z.lt_trichotomy m 1000000000) as [L|[E|L]]; [lia|assumption|].
  pose proof (Ha 1000000000 ltac:(lia)) as C.
  rewrite check_id_valid_out_of_range in C by lia. discriminate.
Qed.

Lemma next_return_is_least (f : nat) (c m : Z) (self' : t) :
  __next__ f (Build c) = Some (Return m, self') ->
  self' = Build (m + 1) /\ least_valid_from c m /\ in_range m.
Proof.
  intros H.
  destruct (next_outcome _ _ _ _ H) as [m' [Hm [Ha [[E [-> Hv]]|[E _]]]]];
    [|discriminate].
  injection E as ->. split; [reflexivity|].
  split; [repeat split; assumption|].
  eapply check_id_valid_returns, Hv.
Qed.

Lemma requests_finished (f K : nat) :
  requests (gen_next f) K GenFinished
  = Some (repeat (Raise StopIteration, GenFinished) K).
Proof.
  induction K as [|K IH]; [reflexivity|].
  cbn [requests repeat gen_next]. rewrite IH. reflexivity.
Qed.

(** A valid id at or after the cursor is handed out, or lies above all
    the ids handed out. *)
Lemma requests_no_skip (f K : nat) :
  forall c tr,
    100000000 <= c <= 1000000000 ->
    requests (__next__ f) K (Build c) = Some tr ->
    forall v, c <= v -> check_id_valid v = Return true ->
              In v (emitted tr) \/ Forall (fun i => i < v) (emitted tr).
Proof.
  induction K as [|K IH]; intros c tr Hc H v Hcv Hv.
  - injection H as <-. right. constructor.
  - apply requests_cons in H. destruct H as [r [s' [tr0 [H1 [H0 ->]]]]].
    pose proof (check_id_valid_returns _ _ Hv) as Rv. 
    destruct r as [m|e].
    + destruct (next_return_is_least _ _ _ _ H1) as [-> [[Hm [Hvm Ha]] Rm]].
      unfold in_range in Rm. cbn [emitted].
      destruct (Z.lt_trichotomy v m) as [L|[E|L]].
      * rewrite (Ha v) in Hv by lia. discriminate.
      * left. left. auto.
      * destruct (IH (m + 1) tr0 ltac:(lia) H0 v ltac:(lia) Hv) as [I|F].
        -- left. right. assumption.
        -- right. constructor; assumption.
    + destruct (next_raise_is_bound _ _ _ _ Hc H1) as [_ [_ Ha]].
      rewrite (Ha v) in Hv by lia. discriminate.
Qed.

(** A valid id at distance below [K] from the cursor is among the ids of
    [K] requests. *)
Lemma requests_reach (f K : nat) :
  forall c tr,
    100000000 <= c <= 1000000000 ->
    requests (__next__ f) K (Build c) = Some tr ->
    forall v, c <= v -> check_id_valid v = Return true ->
              v < c + Z.of_nat K -> In v (emitted tr).
Proof.
  induction K as [|K IH]; intros c tr Hc H v Hcv Hv Hlt; [lia|].
  apply requests_cons in H. destruct H as [r [s' [tr0 [H1 [H0 ->]]]]].
  pose proof (check_id_valid_returns _ _ Hv) as Rv. 
  destruct r as [m|e].
  - destruct (next_return_is_least _ _ _ _ H1) as [-> [[Hm [Hvm Ha]] Rm]].
    unfold in_range in Rm. cbn [emitted].
    destruct (Z.lt_trichotomy v m) as [L|[E|L]].
    + rewrite (Ha v) in Hv by lia. discriminate.
    + left. auto.
    + right. apply (IH (m + 1) tr0); try assumption; lia.
  - destruct (next_raise_is_bound _ _ _ _ Hc H1) as [_ [_ Ha]].
    rewrite (Ha v) in Hv by lia. discriminate.
Qed.

Lemma emitted_it_trace (ids : list Z) (j : nat) :
  emitted (it_trace ids j) = ids.
Proof.
  unfold it_trace. induction ids as [|m ids IH]; simpl.
  - induction j as [|j IHj]; simpl; auto.
  - rewrite IH. reflexivity.
Qed.

Lemma emitted_gen_trace (ids : list Z) (j : nat) :
  emitted (gen_trace ids j) = ids.
Proof.
  unfold gen_trace. induction ids as [|m ids IH]; simpl.
  - induction j as [|j IHj]; simpl; auto.
  - rewrite IH. reflexivity.
Qed.

(** The requests of an iterator: ids, then the [ValueError] for ever;
    when it has come, every valid id from the cursor on was handed out. *)
Lemma next_requests_shape (f K : nat) :
  forall c tr,
    100000000 <= c <= 1000000000 ->
    requests (__next__ f) K (Build c) = Some tr ->
    exists ids j,
      tr = it_trace ids j /\ (List.length ids + j = K)%nat /\
      (j <> 0%nat ->
       forall v, c <= v -> check_id_valid v = Return true -> In v ids).
Proof.
  induction K as [|K IH]; intros c tr Hc H.
  - injection H as <-. exists [], 0%nat. repeat split. congruence.
  - pose proof H as Hall.
    apply requests_cons in H. destruct H as [r [s' [tr0 [H1 [H0 ->]]]]].
    destruct r as [m|e].
    + destruct (next_return_is_least _ _ _ _ H1) as [-> [[Hm [Hvm Ha]] Rm]].
      unfold in_range in Rm.
      destruct (IH (m + 1) tr0 ltac:(lia) H0) as [ids [j [-> [Hlen Hex]]]].
      exists (m :: ids), j. split; [reflexivity|].
      split; [simpl; lia|].
      intros Hj v Hcv Hv.
      destruct (Z.lt_trichotomy v m) as [L|[E|L]].
      * rewrite (Ha v) in Hv by lia. discriminate.
      * left. auto.
      * right. apply Hex; try assumption. lia.
    + destruct (next_raise_is_bound _ _ _ _ Hc H1) as [-> [-> Ha]].
      destruct f as [|f]; [discriminate|].
      rewrite requests_dead in H0 by (unfold in_range; lia).
      injection H0 as <-.
      exists [], (S K). split; [reflexivity|]. split; [reflexivity|].
      intros _ v Hcv Hv.
      pose proof (check_id_valid_returns _ _ Hv) as Rv. 
      rewrite (Ha v) in Hv by lia. discriminate.
Qed.

Lemma gen_next_live (f : nat) (g g' : generator) (r : result Z) :
  gen_live g ->
  gen_next f g = Some (r, g') ->
  (exists m, r = Return m /\ g' = GenSuspended m /\ 100000000 <= m)
  \/ (r = Raise StopIteration /\ g' = GenFinished).
Proof.
  intros L H.
  assert (Loop : forall c, 100000000 <= c ->
                 id_generator_loop f c = Some (r, g') ->
                 (exists m, r = Return m /\ g' = GenSuspended m
                            /\ 100000000 <= m)
                 \/ (r = Raise StopIteration /\ g' = GenFinished)).
  { intros c Hc Hl.
    destruct (loop_outcome _ _ _ _ Hl)
      as [m [Hm [_ [[-> [-> _]]|[[-> [-> _]]|[_ [_ Hlt]]]]]]].
    - left. exists m. repeat split. lia.
    - right. auto.
    - lia. }
  destruct g as [n|n|]; cbn [gen_live] in L.
  - rewrite gen_next_created in H by assumption.
    apply (Loop n); [unfold in_range in L; lia|assumption].
  - apply (Loop (n + 1)); assumption.
  - injection H as <- <-. right. auto.
Qed.

(** The requests of a generator object: ids, then [StopIteration] for
    ever. *)
Lemma gen_requests_shape (f K : nat) :
  forall g tr,
    gen_live g ->
    requests (gen_next f) K g = Some tr ->
    exists ids j,
      tr = gen_trace ids j /\ (List.length ids + j = K)%nat.
Proof.
  induction K as [|K IH]; intros g tr L H.
  - injection H as <-. exists [], 0%nat. split; reflexivity.
  - apply requests_cons in H. destruct H as [r [g' [tr0 [H1 [H0 ->]]]]].
    destruct (gen_next_live _ _ _ _ L H1) as [[m [-> [-> Hm]]]|[-> ->]].
    + destruct (IH (GenSuspended m) tr0 ltac:(simpl; lia) H0)
        as [ids [j [-> Hlen]]].
      exists (m :: ids), j. split; [reflexivity|simpl; lia].
    + rewrite requests_finished in H0. injection H0 as <-.
      exists [], (S K). split; reflexivity.
Qed.

End WholeSequence.

(** X4. Nothing is skipped: for a nine-digit start, every valid id [v]
    at or after it is among the ids of [K] requests to either interface
    as soon as [K] exceeds [v - start]. *)
Theorem every_valid_id_is_handed_out (start v : Z) (K extra : nat) :
  in_range start -> start <= v -> check_id_valid v = Return true ->
  v - start < Z.of_nat K ->
  exists tr_it tr_gen,
    requests (IDIterator.__next__ (scan_bound + extra)) K
      (IDIterator.Build start) = Some tr_it /\
    requests (gen_next (scan_bound + extra)) K (GenCreated start)
    = Some tr_gen /\
    In v (emitted tr_it) /\ In v (emitted tr_gen).
Proof.
  intros Hs Hsv Hv HK. unfold in_range in Hs.
  destruct (requests_total IDIterator.__next__ next_total K
              (IDIterator.Build start)) as [tr_it Hit].
  destruct (requests_agree _ K (IDIterator.Build start) (GenCreated start)
              tr_it (or_introl eq_refl) (Hit extra)) as [tr_gen [Hg F]].
  exists tr_it, tr_gen. split; [apply Hit|]. split; [exact Hg|].
  assert (I : In v (emitted tr_it))
    by (apply (requests_reach _ K start tr_it ltac:(lia) (Hit extra));
        try assumption; lia).
  split; [exact I|]. rewrite <- (emitted_agree _ _ F). exact I.
Qed.

Lemma every_valid_id_is_handed_out_witness :
  exists tr_it tr_gen,
    requests (IDIterator.__next__ (scan_bound + 0)) 59
      (IDIterator.Build 100000000) = Some tr_it /\
    requests (gen_next (scan_bound + 0)) 59 (GenCreated 100000000)
    = Some tr_gen /\
    In 100000058 (emitted tr_it) /\ In 100000058 (emitted tr_gen).
Proof.
  apply (every_valid_id_is_handed_out 100000000 100000058 59 0);
    [unfold in_range; lia|lia|reflexivity|lia].
Defined.

(** X5. [IDIterator.__next__] never raises [StopIteration], whatever the
    state of the iterator: a call returns an id or raises [ValueError].
    So the [except StopIteration: break] of [main] never runs, and the
    loop of [main] that ends normally has collected one id per turn. *)
Theorem iterator_never_signals_stop (self : IDIterator.t) :
  (exists r self',
      (forall extra,
          IDIterator.__next__ (scan_bound + extra) self = Some (r, self'))
      /\ ((exists m, r = Return m) \/ r = Raise ValueError)
      /\ r <> Raise StopIteration)
  /\ (forall fuel count new_ids ids,
         main_it_loop fuel count self new_ids = Some (inl ids) ->
         List.length ids = (List.length new_ids + count)%nat).
Proof.
  split.
  - destruct (next_total self) as [[r self'] H]. exists r, self'.
    split; [exact H|]. destruct self as [c].
    destruct (next_outcome _ _ _ _ (H 0%nat))
      as [m [_ [_ [[-> _]|[-> _]]]]].
    + split; [left; eauto|discriminate].
    + split; [right; reflexivity|discriminate].
  - intros fuel count. revert self.
    induction count as [|count IH]; intros self new_ids ids H.
    + injection H as <-. lia.
    + cbn [main_it_loop] in H.
      destruct (IDIterator.__next__ fuel self) as [[[m|e] self']|] eqn:E;
        [| |discriminate].
      * apply IH in H. rewrite length_app in H. simpl in H. lia.
      * destruct self as [c].
        destruct (next_outcome _ _ _ _ E) as [m [_ [_ [[Er _]|[Er _]]]]];
          [discriminate|].
        injection Er as ->. discriminate.
Qed.

Lemma iterator_never_signals_stop_witness :
  main_it_loop scan_bound 2 (IDIterator.Build 100000000) []
  = Some (inl [100000009; 100000017])
  /\ List.length [100000009; 100000017] = (List.length (@nil Z) + 2)%nat.
Proof.
  assert (H : main_it_loop scan_bound 2 (IDIterator.Build 100000000) []
              = Some (inl [100000009; 100000017])) by reflexivity.
  split; [exact H|].
  apply (proj2 (iterator_never_signals_stop (IDIterator.Build 100000000))
           scan_bound 2%nat [] [100000009; 100000017] H).
Defined.

(** X6. A start that is not a nine-digit number never yields an id:
    every call of [__next__] raises [ValueError] and leaves the cursor at
    the start (the iterator does not scan up to the nine-digit range);
    the generator raises [ValueError] once and signals [StopIteration]
    from then on. *)
Theorem invalid_start_never_yields (start : Z) (fuel K : nat) :
  ~ in_range start ->
  requests (IDIterator.__next__ (S fuel)) K (IDIterator.Build start)
  = Some (repeat (Raise ValueError, IDIterator.Build start) K)
  /\ requests (gen_next (S fuel)) (S K) (GenCreated start)
     = Some ((Raise ValueError, GenFinished)
             :: repeat (Raise StopIteration, GenFinished) K)
  /\ emitted (repeat (Raise ValueError, IDIterator.Build start) K) = []
  /\ emitted ((Raise ValueError, GenFinished)
              :: repeat (Raise StopIteration, GenFinished) K) = [].
Proof.
  intros H. split; [apply requests_dead; assumption|]. split.
  - cbn [requests]. rewrite gen_next_rejects by assumption.
    rewrite requests_finished. reflexivity.
  - split; [|cbn [emitted]]; induction K as [|K IH]; simpl; auto.
Qed.

Lemma invalid_start_never_yields_witness :
  ~ in_range 5 /\
  requests (IDIterator.__next__ 1) 3 (IDIterator.Build 5)
  = Some (repeat (Raise ValueError, IDIterator.Build 5) 3)
  /\ requests (gen_next 1) 4 (GenCreated 5)
     = Some ((Raise ValueError, GenFinished)
             :: repeat (Raise StopIteration, GenFinished) 3)
  /\ emitted (repeat (Raise ValueError, IDIterator.Build 5) 3) = []
  /\ emitted ((Raise ValueError, GenFinished)
              :: repeat (Raise StopIteration, GenFinished) 3) = [].
Proof.
  assert (H : ~ in_range 5) by (unfold in_range; lia).
  split; [exact H|]. apply (invalid_start_never_yields 5 0 3 H).
Defined.

(** X7. The whole sequence of a search from a nine-digit start: the same
    ids from both interfaces, each leaving the cursor after itself, and
    then the end for ever, which the generator signals by [StopIteration]
    and the iterator by a [ValueError] with its cursor at 1000000000.
    When the end has come, every valid id from the start on was handed
    out. *)
Theorem ids_then_end_forever (start : Z) (K extra : nat) :
  in_range start ->
  exists ids j,
    (List.length ids + j = K)%nat /\
    requests (IDIterator.__next__ (scan_bound + extra)) K
      (IDIterator.Build start) = Some (it_trace ids j) /\
    requests (gen_next (scan_bound + extra)) K (GenCreated start)
    = Some (gen_trace ids j) /\
    (j <> 0%nat ->
     forall v, start <= v -> check_id_valid v = Return true -> In v ids).
Proof.
  intros Hs. pose proof Hs as Hs'. unfold in_range in Hs'.
  destruct (requests_total IDIterator.__next__ next_total K
              (IDIterator.Build start)) as [tr_it Hit].
  destruct (requests_agree _ K (IDIterator.Build start) (GenCreated start)
              tr_it (or_introl eq_refl) (Hit extra)) as [tr_gen [Hg F]].
  destruct (next_requests_shape _ K start tr_it ltac:(lia) (Hit extra))
    as [ids [j [-> [Hlen Hex]]]].
  destruct (gen_requests_shape _ K (GenCreated start) tr_gen Hs Hg)
    as [ids' [j' [-> Hlen']]].
  apply emitted_agree in F.
  rewrite emitted_it_trace, emitted_gen_trace in F. subst ids'.
  assert (j' = j) by lia. subst j'.
  exists ids, j. split; [assumption|]. split; [apply Hit|].
  split; assumption.
Qed.

Lemma ids_then_end_forever_witness :
  in_range 999999990 /\
  exists ids j,
    (List.length ids + j = 3)%nat /\
    requests (IDIterator.__next__ (scan_bound + 0)) 3
      (IDIterator.Build 999999990) = Some (it_trace ids j) /\
    requests (gen_next (scan_bound + 0)) 3 (GenCreated 999999990)
    = Some (gen_trace ids j) /\
    (j <> 0%nat ->
     forall v, 999999990 <= v -> check_id_valid v = Return true -> In v ids).
Proof.
  assert (H : in_range 999999990) by (unfold in_range; lia).
  split; [exact H|]. apply (ids_then_end_forever 999999990 3 0 H).
Defined.

(** ** The interactive entry point *)

Section EntryPoint.

Import IDIterator.

Lemma forall_from_spec (P : Z -> bool) (k : nat) :
  forall lo,
    forall_from k lo P = true ->
    forall x, lo <= x < lo + Z.of_nat k -> P x = true.
Proof.
  induction k as [|k IH]; intros lo H x Hx; [lia|].
  cbn [forall_from] in H. apply andb_prop in H. destruct H as [H0 H1].
  destruct (Z.eq_dec x lo) as [->|Hne]; [assumption|].
  apply (IH (lo + 1)); [assumption|lia].
Qed.

Lemma all_return_emitted {St : Type} (tr : list (result Z * St)) :
  all_return tr = true -> List.length (emitted tr) = List.length tr.
Proof.
  induction tr as [|[[m|e] s] tr IH]; simpl; intros H;
    [reflexivity| |discriminate].
  f_equal. apply IH. assumption.
Qed.

Lemma all_return_agree {S1 S2 : Type}
  (tr1 : list (result Z * S1)) (tr2 : list (result Z * S2)) :
  Forall2 (fun x y => same_outcome (fst x) (fst y)) tr1 tr2 ->
  all_return tr1 = all_return tr2.
Proof.
  induction 1 as [|[r1 s1] [r2 s2] l1 l2 Hso _ IH]; [reflexivity|].
  simpl in *. rewrite IH.
  destruct r1, r2; simpl in Hso; try contradiction; reflexivity.
Qed.

(** The loop of [main] over the iterator, by the requests it makes. *)
Lemma main_it_loop_requests (f K : nat) :
  forall iterator new_ids tr,
    requests (__next__ f) K iterator = Some tr ->
    main_it_loop f K iterator new_ids
    = Some (if all_return tr then inl (new_ids ++ emitted tr)
            else inr (RaisedValueError msg_check_id)).
Proof.
  induction K as [|K IH]; intros iterator new_ids tr H.
  - injection H as <-. simpl. rewrite app_nil_r. reflexivity.
  - apply requests_cons in H. destruct H as [r [s' [tr0 [H1 [H0 ->]]]]].
    cbn [main_it_loop]. rewrite H1. destruct r as [m|e].
    + rewrite (IH _ _ _ H0). cbn [all_return forallb fst emitted].
      fold (all_return tr0). rewrite <- app_assoc. reflexivity.
    + destruct iterator as [c].
      destruct (next_outcome _ _ _ _ H1) as [m [_ [_ [[Er _]|[Er _]]]]];
        [discriminate|].
      injection Er as ->. reflexivity.
Qed.

(** The comprehension of [main] over the generator, by its requests. *)
Lemma main_gen_list_requests (f K : nat) :
  forall generator tr,
    gen_live generator ->
    requests (gen_next f) K generator = Some tr ->
    main_gen_list f K generator
    = Some (if all_return tr then inl (emitted tr)
            else inr RaisedStopIteration).
Proof.
  induction K as [|K IH]; intros generator tr L H.
  - injection H as <-. reflexivity.
  - apply requests_cons in H. destruct H as [r [g' [tr0 [H1 [H0 ->]]]]].
    cbn [main_gen_list]. rewrite H1.
    destruct (gen_next_live _ _ _ _ L H1) as [[m [-> [-> Hm]]]|[-> ->]].
    + rewrite (IH (GenSuspended m) tr0 ltac:(simpl; lia) H0).
      cbn [all_return forallb fst emitted]. fold (all_return tr0).
      destruct (all_return tr0); reflexivity.
    + reflexivity.
Qed.

(** Far enough below the upper bound every request hands out an id. *)
Lemma requests_all_return (K : nat) :
  forall c extra tr,
    in_range c -> c + 18 * Z.of_nat K <= 1000000000 ->
    requests (__next__ (scan_bound + extra)) K (Build c) = Some tr ->
    all_return tr = true.
Proof.
  induction K as [|K IH]; intros c extra tr Hc Hhi H.
  - injection H as <-. reflexivity.
  - apply requests_cons in H. destruct H as [r [s' [tr0 [H1 [H0 ->]]]]].
    unfold in_range in Hc.
    destruct (valid_within_bound c) as [m0 [Hm0 Hv0]]; try lia.
    destruct r as [m|e].
    + destruct (next_return_is_least _ _ _ _ H1) as [-> [[Hm [Hvm Ha]] Rm]].
      assert (m <= m0).
      { destruct (Z.le_gt_cases m m0) as [L|G]; [assumption|].
        rewrite (Ha m0) in Hv0 by lia. discriminate. }
      cbn [all_return forallb fst andb]. fold (all_return tr0).
      rewrite Nat2Z.inj_succ in Hhi.
      destruct K as [|K'].
      * injection H0 as <-. reflexivity.
      * apply (IH (m + 1) extra tr0); [unfold in_range; lia|lia|assumption].
    + destruct (next_raise_is_bound _ c _ _ ltac:(lia) H1) as [_ [_ Ha]].
      rewrite (Ha m0) in Hv0 by lia. discriminate.
Qed.

Lemma ten_available_near :
  forall_from 180 999999820
    (fun s => Bool.eqb (ten_available s) (s <=? 999999907)) = true.
Proof. vm_compute. reflexivity. Qed.

(** Ten ids are left from the cursor [s] exactly up to 999999907. *)
Lemma ten_available_iff (s : Z) :
  in_range s -> ten_available s = (s <=? 999999907).
Proof.
  intros Hs. pose proof Hs as Hs'. unfold in_range in Hs'.
  destruct (Z.le_gt_cases 999999820 s) as [Hnear|Hfar].
  - apply Bool.eqb_prop.
    apply (forall_from_spec _ _ _ ten_available_near). lia.
  - destruct (Z.leb_spec s 999999907); [|lia].
    unfold ten_available.
    destruct (requests_total __next__ next_total 10 (Build s)) as [tr Htr].
    pose proof (Htr 0%nat) as H0.
    change (scan_bound + 0)%nat with scan_bound in H0. rewrite H0.
    apply (requests_all_return 10 s 0 tr Hs); [lia|apply Htr].
Qed.

Lemma ten_requests (s : Z) (extra : nat) :
  in_range s ->
  exists tr_it tr_gen,
    requests (__next__ (scan_bound + extra)) 10 (Build s) = Some tr_it /\
    requests (gen_next (scan_bound + extra)) 10 (GenCreated s)
    = Some tr_gen /\
    emitted tr_gen = emitted tr_it /\
    all_return tr_it = (s <=? 999999907) /\
    all_return tr_gen = (s <=? 999999907).
Proof.
  intros Hs.
  destruct (requests_total __next__ next_total 10 (Build s)) as [tr_it Hit].
  destruct (requests_agree _ 10 (Build s) (GenCreated s)
              tr_it (or_introl eq_refl) (Hit extra)) as [tr_gen [Hg F]].
  exists tr_it, tr_gen. split; [apply Hit|]. split; [exact Hg|].
  split; [symmetry; apply emitted_agree; assumption|].
  assert (A : all_return tr_it = (s <=? 999999907)).
  { rewrite <- (ten_available_iff s Hs). unfold ten_available.
    pose proof (Hit 0%nat) as H0.
    change (scan_bound + 0)%nat with scan_bound in H0. rewrite H0.
    reflexivity. }
  split; [exact A|]. rewrite <- (all_return_agree _ _ F). exact A.
Qed.

(** [main] accepts the text of a nine-digit integer, and reads back that
    integer. *)
Lemma main_accepts (n : Z) :
  in_range n ->
  negb (Nat.eqb (String.length (str n)) 9)
  || negb (isnumeric (str n))
  || (int_of_text (str n) <? 100000000) = false
  /\ int_of_text (str n) = n.
Proof.
  intros H. destruct (str_is_accepted n H) as [L [N I]].
  rewrite L, N, I. unfold in_range in H.
  destruct (Z.ltb_spec n 100000000); [lia|]. auto.
Qed.

Lemma main_it_result (n : Z) (fuel : nat) :
  in_range n ->
  main fuel (str n) "it"
  = match main_it_loop fuel 10 (Build n) [] with
    | None => None
    | Some (inl new_ids) => Some (map str new_ids, None)
    | Some (inr (RaisedValueError message)) => Some ([message], None)
    | Some (inr RaisedStopIteration) => Some ([], Some RaisedStopIteration)
    end.
Proof.
  intros H. destruct (main_accepts n H) as [G I].
  unfold main. rewrite G, I. reflexivity.
Qed.

Lemma main_gen_result (n : Z) (fuel : nat) :
  in_range n ->
  main fuel (str n) "gen"
  = match main_gen_list fuel 10 (GenCreated n) with
    | None => None
    | Some (inl new_ids) => Some (map str new_ids, None)
    | Some (inr (RaisedValueError message)) => Some ([message], None)
    | Some (inr RaisedStopIteration) => Some ([], Some RaisedStopIteration)
    end.
Proof.
  intros H. destruct (main_accepts n H) as [G I].
  unfold main. rewrite G, I. reflexivity.
Qed.

End EntryPoint.

(** X8. [main] goes on only with the decimal text of an integer from
    100000000 to 999999999: for every other first line of ASCII text it
    prints the one message of its own [ValueError] and nothing else,
    whatever the second line would be. *)
Theorem main_rejects_other_input (fuel : nat) (new_id choice : string) :
  is_ascii_text new_id = true ->
  (forall n, in_range n -> new_id <> str n) ->
  main fuel new_id choice = Some ([msg_main_id], None).
Proof.
  intros _ H. unfold main.
  destruct (negb (Nat.eqb (String.length new_id) 9)
            || negb (isnumeric new_id)
            || (int_of_text new_id <? 100000000)) eqn:G; [reflexivity|].
  exfalso.
  apply orb_false_elim in G. destruct G as [G Hlt].
  apply orb_false_elim in G. destruct G as [Hlen Hnum].
  apply negb_false_iff in Hlen, Hnum. apply Nat.eqb_eq in Hlen.
  apply Z.ltb_ge in Hlt.
  destruct (accepted_text_is_str new_id Hlen Hnum Hlt) as [R E].
  apply (H _ R). symmetry. exact E.
Qed.

Lemma main_rejects_other_input_witness :
  is_ascii_text "012345678" = true /\
  main scan_bound "012345678" "it" = Some ([msg_main_id], None).
Proof.
  split; [reflexivity|].
  apply (main_rejects_other_input scan_bound "012345678" "it");
    [reflexivity|].
  intros n Hn E. destruct (str_is_accepted n Hn) as [_ [_ I]].
  rewrite <- E in I. unfold in_range in Hn. vm_compute in I. lia.
Defined.

(** X9. With an accepted id and a second line that is neither [it] nor
    [gen], [main] prints the message of the invalid choice and no id. *)
Theorem main_rejects_other_choice (fuel : nat) (n : Z) (choice : string) :
  in_range n -> choice <> "it"%string -> choice <> "gen"%string ->
  main fuel (str n) choice = Some ([msg_main_choice], None).
Proof.
  intros H Hit Hgen. destruct (main_accepts n H) as [G I].
  unfold main. rewrite G.
  apply String.eqb_neq in Hit, Hgen. rewrite Hit, Hgen. reflexivity.
Qed.

Lemma main_rejects_other_choice_witness :
  main scan_bound (str 123456782) "iterator"
  = Some ([msg_main_choice], None).
Proof.
  apply (main_rejects_other_choice scan_bound 123456782 "iterator");
    [unfold in_range; lia|discriminate|discriminate].
Defined.

(** X10. For every start from 100000000 to 999999907, [main] prints ten
    lines, the same ones for [it] and for [gen]: the texts of the ten
    smallest valid ids at or after the start, in increasing order. *)
Theorem main_prints_ten_smallest_ids (start : Z) (extra : nat) :
  in_range start -> start <= 999999907 ->
  exists ids,
    main (scan_bound + extra) (str start) "it" = Some (map str ids, None) /\
    main (scan_bound + extra) (str start) "gen" = Some (map str ids, None) /\
    List.length ids = 10%nat /\
    StronglySorted Z.lt ids /\
    Forall (fun v => start <= v /\ check_id_valid v = Return true) ids /\
    (forall v, start <= v -> check_id_valid v = Return true ->
               In v ids \/ Forall (fun i => i < v) ids).
Proof.
  intros Hs Hle. pose proof Hs as Hs'. unfold in_range in Hs'.
  destruct (ten_requests start extra Hs)
    as [tr_it [tr_gen [Hit [Hgen [Eq [Ait Agen]]]]]].
  destruct (Z.leb_spec start 999999907); [|lia].
  exists (emitted tr_it).
  split; [|split; [|split; [|split; [|split]]]].
  - rewrite main_it_result by assumption.
    rewrite (main_it_loop_requests _ _ _ _ _ Hit), Ait. reflexivity.
  - rewrite main_gen_result by assumption.
    rewrite (main_gen_list_requests _ _ (GenCreated start) _ Hs Hgen), Agen, Eq. reflexivity.
  - rewrite (all_return_emitted _ Ait).
    eapply requests_length, Hit.
  - apply (next_requests_inv _ _ _ _ Hit).
  - apply (next_requests_inv _ _ _ _ Hit).
  - intros v. apply (requests_no_skip _ _ start _ ltac:(lia) Hit).
Qed.

Lemma main_prints_ten_smallest_ids_witness :
  exists ids,
    main (scan_bound + 0) (str 999999907) "it" = Some (map str ids, None) /\
    main (scan_bound + 0) (str 999999907) "gen" = Some (map str ids, None) /\
    List.length ids = 10%nat /\
    StronglySorted Z.lt ids /\
    Forall (fun v => 999999907 <= v /\ check_id_valid v = Return true) ids /\
    (forall v, 999999907 <= v -> check_id_valid v = Return true ->
               In v ids \/ Forall (fun i => i < v) ids).
Proof.
  apply (main_prints_ten_smallest_ids 999999907 0);
    [unfold in_range; lia|lia].
Defined.

(** X11. For every start from 999999908 to 999999999 fewer than ten valid
    ids are left, and [main] prints none of them: with [it] it prints the
    message of the [ValueError] of [check_id_valid] alone, with [gen] it
    prints nothing and [StopIteration] leaves [main] uncaught. *)
Theorem main_near_upper_bound_prints_no_id (start : Z) (extra : nat) :
  in_range start -> 999999907 < start ->
  main (scan_bound + extra) (str start) "it" = Some ([msg_check_id], None) /\
  main (scan_bound + extra) (str start) "gen"
  = Some ([], Some RaisedStopIteration).
Proof.
  intros Hs Hgt.
  destruct (ten_requests start extra Hs)
    as [tr_it [tr_gen [Hit [Hgen [Eq [Ait Agen]]]]]].
  destruct (Z.leb_spec start 999999907); [lia|].
  split.
  - rewrite main_it_result by assumption.
    rewrite (main_it_loop_requests _ _ _ _ _ Hit), Ait. reflexivity.
  - rewrite main_gen_result by assumption.
    rewrite (main_gen_list_requests _ _ (GenCreated start) _ Hs Hgen), Agen. reflexivity.
Qed.

Lemma main_near_upper_bound_prints_no_id_witness :
  main (scan_bound + 0) (str 999999908) "it" = Some ([msg_check_id], None) /\
  main (scan_bound + 0) (str 999999908) "gen"
  = Some ([], Some RaisedStopIteration).
Proof.
  apply (main_near_upper_bound_prints_no_id 999999908 0);
    [unfold in_range; lia|lia].
Defined.

(** [main] at work. *)
Example main_prints_ids :
  main scan_bound "123456782" "it"
  = Some (["123456782"; "123456790"; "123456808"; "123456816"; "123456824";
           "123456832"; "123456840"; "123456857"; "123456865";
           "123456873"]%string, None).
Proof. vm_compute. reflexivity. Qed.
